(** * Transactions of near-api-js: builders, canonical encoding, signing

    A shallow embedding of [src.ts/transaction.ts].  JavaScript values are
    modelled by the type [value]; objects carry the class that constructed
    them and a finite map of properties.  The helpers imported by the module
    ([./utils/enums], [./utils/serialize], [js-sha256]) are not part of the
    file; they are modelled in the sections marked as such. *)

From Stdlib Require Import ZArith List String Lia.
From Stdlib.Strings Require Import Byte.
From stdpp Require Import base option gmap strings list.
Import ListNotations.
Open Scope Z_scope.

Set Warnings "-register-all".

(** ** Errors and results *)

Inductive error : Type :=
| ArityError (supplied : nat) (expected : string)
| SchemaError
| VariantError
| TypeError
| SignerError (reason : string).

Inductive result (A : Type) : Type :=
| Ok (a : A)
| Err (e : error).
Arguments Ok {A} a.
Arguments Err {A} e.

#[global] Instance result_ret : MRet result := λ A a, Ok a.
#[global] Instance result_bind : MBind result := λ A B f m,
  match m with Ok a => f a | Err e => Err e end.
#[global] Instance result_fmap : FMap result := λ A B f m,
  match m with Ok a => Ok (f a) | Err e => Err e end.

Definition is_ok {A} (r : result A) : bool :=
  match r with Ok _ => true | Err _ => false end.

(** ** Classes and values *)

(** The classes declared (or imported) by the module, and [PlainObject] for
    object literals. *)
Inductive class : Type :=
| FunctionCallPermission | FullAccessPermission | AccessKeyPermission
| AccessKey
| CreateAccount | DeployContract | FunctionCall | Transfer | Stake
| AddKey | DeleteKey | DeleteAccount
| Signature | Transaction | SignedTransaction | Action
| PublicKey
| PlainObject.

#[global] Instance class_eq_dec : EqDecision class.
Proof. solve_decision. Defined.

(** Numbers and [BN] big integers are both integers here; a [Uint8Array] is
    a byte string; a string is held as the bytes of its UTF-8 form. *)
Inductive value : Type :=
| VUndefined
| VInt (n : Z)
| VString (s : string)
| VBytes (b : list byte)
| VArray (l : list value)
| VObject (c : class) (props : gmap string value).

(** [obj[name]]: a missing property reads as [undefined]. *)
Definition get (props : gmap string value) (name : string) : value :=
  default VUndefined (props !! name).

(** [v.name] on an arbitrary value: reading a property of [undefined]
    throws. *)
Definition get_prop (v : value) (name : string) : result value :=
  match v with
  | VUndefined => Err TypeError
  | VObject _ props => Ok (get props name)
  | _ => Ok VUndefined
  end.

(** ** Schema descriptors *)

Inductive fieldType : Type :=
| TU8 | TU16 | TU32 | TU64 | TU128      (* 'u8' ... 'u128' *)
| TString                               (* 'string' *)
| TFixed (n : nat)                      (* [N] *)
| TArray (t : fieldType)                (* [T] *)
| TOption (t : fieldType)               (* {kind: 'option', type: T} *)
| TClass (c : class).                   (* a class of the schema *)

#[global] Instance fieldType_eq_dec : EqDecision fieldType.
Proof. solve_decision. Defined.

Inductive descriptor : Type :=
| Struct (fields : list (string * fieldType))
| Enum (field : string) (values : list (string * fieldType)).

Definition Schema : Type := list (class * descriptor).

Fixpoint schema_get (schema : Schema) (c : class) : option descriptor :=
  match schema with
  | [] => None
  | (c', d) :: rest => if decide (c = c') then Some d else schema_get rest c
  end.

Definition SCHEMA : Schema := [
  (Signature, Struct [
    ("keyType", TU8);
    ("data", TFixed 64)
  ]);
  (SignedTransaction, Struct [
    ("transaction", TClass Transaction);
    ("signature", TClass Signature)
  ]);
  (Transaction, Struct [
    ("signerId", TString);
    ("publicKey", TClass PublicKey);
    ("nonce", TU64);
    ("receiverId", TString);
    ("blockHash", TFixed 32);
    ("actions", TArray (TClass Action))
  ]);
  (PublicKey, Struct [
    ("keyType", TU8);
    ("data", TFixed 32)
  ]);
  (AccessKey, Struct [
    ("nonce", TU64);
    ("permission", TClass AccessKeyPermission)
  ]);
  (AccessKeyPermission, Enum "enum" [
    ("functionCall", TClass FunctionCallPermission);
    ("fullAccess", TClass FullAccessPermission)
  ]);
  (FunctionCallPermission, Struct [
    ("allowance", TOption TU128);
    ("receiverId", TString);
    ("methodNames", TArray TString)
  ]);
  (FullAccessPermission, Struct []);
  (Action, Enum "enum" [
    ("createAccount", TClass CreateAccount);
    ("deployContract", TClass DeployContract);
    ("functionCall", TClass FunctionCall);
    ("transfer", TClass Transfer);
    ("stake", TClass Stake);
    ("addKey", TClass AddKey);
    ("deleteKey", TClass DeleteKey);
    ("deleteAccount", TClass DeleteAccount)
  ]);
  (CreateAccount, Struct []);
  (DeployContract, Struct [
    ("code", TArray TU8)
  ]);
  (FunctionCall, Struct [
    ("methodName", TString);
    ("args", TArray TU8);
    ("gas", TU64);
    ("deposit", TU128)
  ]);
  (Transfer, Struct [
    ("deposit", TU128)
  ]);
  (Stake, Struct [
    ("stake", TU128);
    ("publicKey", TClass PublicKey)
  ]);
  (AddKey, Struct [
    ("publicKey", TClass PublicKey);
    ("accessKey", TClass AccessKey)
  ]);
  (DeleteKey, Struct [
    ("publicKey", TClass PublicKey)
  ]);
  (DeleteAccount, Struct [
    ("beneficiaryId", TString)
  ])
].

(** ** Object construction ([./utils/enums]) *)

Definition is_undefined (v : value) : bool :=
  match v with VUndefined => true | _ => false end.

(** Modelled from the spec: a slot is populated when it holds a value,
    that is anything but [undefined] ([./utils/enums] is missing). *)
Definition populated (props : gmap string value) (name : string) : bool :=
  negb (is_undefined (get props name)).

Definition populated_count (props : gmap string value) : nat :=
  length (filter (λ kv, is_undefined kv.2 = false) (map_to_list props)).

(** Modelled from the spec: the constructor of [Assignable] ([./utils/enums]
    is missing).  Records are value objects built from their properties. *)
Definition new_Assignable (c : class) (properties : gmap string value) : value :=
  VObject c properties.

(** Modelled from the spec: the constructor of [Enum] ([./utils/enums] is
    missing).  Constructing a tagged union with more than one populated slot
    fails. *)
Definition new_Enum (c : class) (properties : gmap string value) : result value :=
  if decide (1 < populated_count properties)%nat then Err VariantError
  else Ok (VObject c properties).

(** ** Builders *)

(** A call supplies the list [arguments]; a parameter beyond its end is
    [undefined]. *)
Definition arg (arguments : list value) (i : nat) : value :=
  default VUndefined (arguments !! i).

Definition fullAccessKey (arguments : list value) : result value :=
  if decide (length arguments ≠ 0%nat) then
    Err (ArityError (length arguments) "none")
  else
    permission ← new_Enum AccessKeyPermission
      {[ "fullAccess" := new_Assignable FullAccessPermission ∅ ]};
    Ok (new_Assignable AccessKey
          {[ "nonce" := VInt 0; "permission" := permission ]}).

Definition functionCallAccessKey (arguments : list value) : result value :=
  let receiverId := arg arguments 0 in
  let methodNames := arg arguments 1 in
  let allowance := arg arguments 2 in
  permission ← new_Enum AccessKeyPermission
    {[ "functionCall" := new_Assignable FunctionCallPermission
         {[ "receiverId" := receiverId; "allowance" := allowance;
            "methodNames" := methodNames ]} ]};
  Ok (new_Assignable AccessKey
        {[ "nonce" := VInt 0; "permission" := permission ]}).

Definition createAccount (arguments : list value) : result value :=
  if decide (length arguments ≠ 0%nat) then
    Err (ArityError (length arguments) "none")
  else
    new_Enum Action {[ "createAccount" := new_Assignable CreateAccount ∅ ]}.

Definition deployContract (arguments : list value) : result value :=
  let code := arg arguments 0 in
  if decide (length arguments ≠ 1%nat) then
    Err (ArityError (length arguments) "code")
  else
    new_Enum Action
      {[ "deployContract" := new_Assignable DeployContract {[ "code" := code ]} ]}.

Definition functionCall (arguments : list value) : result value :=
  let methodName := arg arguments 0 in
  let args := arg arguments 1 in
  let gas := arg arguments 2 in
  let deposit := arg arguments 3 in
  if decide (length arguments ≠ 4%nat) then
    Err (ArityError (length arguments) "methodName, args, gas, deposit")
  else
    new_Enum Action
      {[ "functionCall" := new_Assignable FunctionCall
           {[ "methodName" := methodName; "args" := args; "gas" := gas;
              "deposit" := deposit ]} ]}.

Definition transfer (arguments : list value) : result value :=
  let deposit := arg arguments 0 in
  if decide (length arguments ≠ 1%nat) then
    Err (ArityError (length arguments) "deposit")
  else
    new_Enum Action
      {[ "transfer" := new_Assignable Transfer {[ "deposit" := deposit ]} ]}.

Definition stake (arguments : list value) : result value :=
  let stake := arg arguments 0 in
  let publicKey := arg arguments 1 in
  if decide (length arguments ≠ 2%nat) then
    Err (ArityError (length arguments) "stake and publicKey")
  else
    new_Enum Action
      {[ "stake" := new_Assignable Stake
           {[ "stake" := stake; "publicKey" := publicKey ]} ]}.

Definition addKey (arguments : list value) : result value :=
  let publicKey := arg arguments 0 in
  let accessKey := arg arguments 1 in
  if decide (length arguments ≠ 2%nat) then
    Err (ArityError (length arguments) "publicKey and accessKey")
  else
    new_Enum Action
      {[ "addKey" := new_Assignable AddKey
           {[ "publicKey" := publicKey; "accessKey" := accessKey ]} ]}.

Definition deleteKey (arguments : list value) : result value :=
  let publicKey := arg arguments 0 in
  if decide (length arguments ≠ 1%nat) then
    Err (ArityError (length arguments) "publicKey")
  else
    new_Enum Action
      {[ "deleteKey" := new_Assignable DeleteKey {[ "publicKey" := publicKey ]} ]}.

Definition deleteAccount (arguments : list value) : result value :=
  let beneficiaryId := arg arguments 0 in
  if decide (length arguments ≠ 1%nat) then
    Err (ArityError (length arguments) "beneficiaryId")
  else
    new_Enum Action
      {[ "deleteAccount" := new_Assignable DeleteAccount
           {[ "beneficiaryId" := beneficiaryId ]} ]}.

Definition createTransaction
    (signerId publicKey receiverId nonce actions blockHash : value) : value :=
  new_Assignable Transaction
    {[ "signerId" := signerId; "publicKey" := publicKey; "nonce" := nonce;
       "receiverId" := receiverId; "actions" := actions;
       "blockHash" := blockHash ]}.

(** ** Primitive codec ([./utils/serialize]) *)

Definition byte_of_Z (n : Z) : byte :=
  default Byte.x00 (Byte.of_N (Z.to_N (n mod 256))).

Definition Z_of_byte (b : byte) : Z := Z.of_N (Byte.to_N b).

(** Modelled from the spec: the fixed-width little-endian integers of the
    primitive codec ([./utils/serialize] is missing); the bytes of [n], [w]
    of them, least significant first. *)
Fixpoint le_bytes (w : nat) (n : Z) : list byte :=
  match w with
  | O => []
  | S w' => byte_of_Z n :: le_bytes w' (n / 256)
  end.

(** Modelled from the spec: the integer that little-endian bytes stand for
    ([./utils/serialize] is missing). *)
Fixpoint le_value (bs : list byte) : Z :=
  match bs with
  | [] => 0
  | b :: rest => Z_of_byte b + 256 * le_value rest
  end.

Definition continuation (c : N) : bool := ((0x80 <=? c) && (c <=? 0xBF))%N.

Definition between (lo c hi : N) : bool := ((lo <=? c) && (c <=? hi))%N.

(** Modelled from the spec: the UTF-8 constraint on strings
    ([./utils/serialize] is missing).  Well-formed UTF-8 (RFC 3629):
    shortest forms only, no surrogates, nothing above U+10FFFF. *)
Fixpoint utf8_valid (bs : list byte) : bool :=
  match bs with
  | [] => true
  | b0 :: r0 =>
    let c0 := Byte.to_N b0 in
    if (c0 <? 0x80)%N then utf8_valid r0 else
    match r0 with
    | [] => false
    | b1 :: r1 =>
      let c1 := Byte.to_N b1 in
      if between 0xC2 c0 0xDF then continuation c1 && utf8_valid r1 else
      match r1 with
      | [] => false
      | b2 :: r2 =>
        let c2 := Byte.to_N b2 in
        if (c0 =? 0xE0)%N then
          between 0xA0 c1 0xBF && continuation c2 && utf8_valid r2
        else if between 0xE1 c0 0xEC || between 0xEE c0 0xEF then
          continuation c1 && continuation c2 && utf8_valid r2
        else if (c0 =? 0xED)%N then
          between 0x80 c1 0x9F && continuation c2 && utf8_valid r2
        else
        match r2 with
        | [] => false
        | b3 :: r3 =>
          let c3 := Byte.to_N b3 in
          if (c0 =? 0xF0)%N then
            between 0x90 c1 0xBF && continuation c2 && continuation c3
            && utf8_valid r3
          else if between 0xF1 c0 0xF3 then
            continuation c1 && continuation c2 && continuation c3
            && utf8_valid r3
          else if (c0 =? 0xF4)%N then
            between 0x80 c1 0x8F && continuation c2 && continuation c3
            && utf8_valid r3
          else false
        end
      end
    end
  end.

Definition width (t : fieldType) : nat :=
  match t with
  | TU8 => 1 | TU16 => 2 | TU32 => 4 | TU64 => 8 | TU128 => 16
  | _ => 0
  end.

Definition in_range (w : nat) (n : Z) : Prop := 0 ≤ n < 256 ^ Z.of_nat w.

#[global] Instance in_range_dec w n : Decision (in_range w n).
Proof. unfold in_range. apply _. Defined.

(** Modelled from the spec: the writers of [./utils/serialize] (missing).
    Unsigned integers are fixed-width little-endian; a value that does not
    fit its type is refused. *)
Definition write_uint (w : nat) (v : value) : result (list byte) :=
  match v with
  | VInt n => if decide (in_range w n) then Ok (le_bytes w n) else Err SchemaError
  | _ => Err SchemaError
  end.

(** Modelled from the spec: the u32 prefix of strings and variable arrays
    ([./utils/serialize] is missing). *)
Definition write_u32 (n : nat) : result (list byte) :=
  write_uint 4 (VInt (Z.of_nat n)).

(** Modelled from the spec: a string is a u32 byte-length prefix followed
    by its UTF-8 bytes. *)
Definition write_string (v : value) : result (list byte) :=
  match v with
  | VString s =>
    let b := list_byte_of_string s in
    if utf8_valid b then len ← write_u32 (length b); Ok (len ++ b)
    else Err SchemaError
  | _ => Err SchemaError
  end.

(** Modelled from the spec: a fixed array is exactly [n] raw bytes, without
    a length prefix; any other length is a [SchemaError]. *)
Definition write_fixed_array (n : nat) (v : value) : result (list byte) :=
  match v with
  | VBytes b => if decide (length b = n) then Ok b else Err SchemaError
  | _ => Err SchemaError
  end.

(** Modelled from the spec: the readers of [./utils/serialize] (missing).
    A reader never reads past the end of its input. *)
Definition read_bytes (n : nat) (bs : list byte) : result (list byte * list byte) :=
  if decide (n ≤ length bs)%nat then Ok (take n bs, drop n bs)
  else Err SchemaError.

(** Modelled from the spec: reading a fixed-width little-endian integer
    ([./utils/serialize] is missing). *)
Definition read_uint (w : nat) (bs : list byte) : result (Z * list byte) :=
  '(b, rest) ← read_bytes w bs; Ok (le_value b, rest).

(** Modelled from the spec: reading a string ([./utils/serialize] is
    missing); bytes that are not UTF-8 are a [SchemaError]. *)
Definition read_string (bs : list byte) : result (value * list byte) :=
  '(len, rest) ← read_uint 4 bs;
  '(b, rest) ← read_bytes (Z.to_nat len) rest;
  if utf8_valid b then Ok (VString (string_of_list_byte b), rest)
  else Err SchemaError.

(** ** Composite encoder and decoder ([./utils/serialize]) *)

Fixpoint mapM_result {A B} (f : A → result B) (l : list A) : result (list B) :=
  match l with
  | [] => Ok []
  | x :: rest => y ← f x; ys ← mapM_result f rest; Ok (y :: ys)
  end.

(** Modelled from the spec: the populated slots of a tagged union, each
    with its zero-based index in the declared list ([./utils/serialize] is
    missing). *)
Fixpoint populated_slots (props : gmap string value) (idx : nat)
    (values : list (string * fieldType)) : list (nat * (string * fieldType)) :=
  match values with
  | [] => []
  | (name, t) :: rest =>
    (if populated props name then [(idx, (name, t))] else [])
    ++ populated_slots props (S idx) rest
  end.

Section fields.
(** The encoder and decoder of the classes of the schema. *)
Variable serializeStruct : value → result (list byte).
Variable deserializeStruct : class → list byte → result (value * list byte).

(** Modelled from the spec: [serializeField] of [./utils/serialize]
    (missing).  A variable array is a u32 element count followed by the
    elements in order; an option is a presence byte followed by the value
    when there is one. *)
Fixpoint serializeField (v : value) (t : fieldType) : result (list byte) :=
  match t with
  | TU8 | TU16 | TU32 | TU64 | TU128 => write_uint (width t) v
  | TString => write_string v
  | TFixed n => write_fixed_array n v
  | TArray t' =>
    match v with
    | VBytes b =>
      match t' with
      | TU8 => len ← write_u32 (length b); Ok (len ++ b)
      | _ => Err SchemaError
      end
    | VArray l =>
      len ← write_u32 (length l);
      items ← mapM_result (λ x, serializeField x t') l;
      Ok (len ++ concat items)
    | _ => Err SchemaError
    end
  | TOption t' =>
    match v with
    | VUndefined => Ok [Byte.x00]
    | _ => b ← serializeField v t'; Ok (Byte.x01 :: b)
    end
  | TClass c =>
    match v with
    | VObject c' _ =>
      if decide (c = c') then serializeStruct v else Err SchemaError
    | _ => Err SchemaError
    end
  end.

(** Modelled from the spec: the elements of a variable array, in order
    ([./utils/serialize] is missing). *)
Fixpoint read_array (read : list byte → result (value * list byte))
    (n : nat) (bs : list byte) : result (list value * list byte) :=
  match n with
  | O => Ok ([], bs)
  | S n' =>
    '(x, rest) ← read bs;
    '(xs, rest) ← read_array read n' rest;
    Ok (x :: xs, rest)
  end.

(** Modelled from the spec: [deserializeField] of [./utils/serialize]
    (missing), the structural inverse of [serializeField]. *)
Fixpoint deserializeField (t : fieldType) (bs : list byte)
    : result (value * list byte) :=
  match t with
  | TU8 | TU16 | TU32 | TU64 | TU128 =>
    '(n, rest) ← read_uint (width t) bs; Ok (VInt n, rest)
  | TString => read_string bs
  | TFixed n => '(b, rest) ← read_bytes n bs; Ok (VBytes b, rest)
  | TArray t' =>
    '(len, rest) ← read_uint 4 bs;
    match t' with
    | TU8 => '(b, rest) ← read_bytes (Z.to_nat len) rest; Ok (VBytes b, rest)
    | _ =>
      '(l, rest) ← read_array (deserializeField t') (Z.to_nat len) rest;
      Ok (VArray l, rest)
    end
  | TOption t' =>
    '(flag, rest) ← read_uint 1 bs;
    if decide (flag = 0) then Ok (VUndefined, rest)
    else if decide (flag = 1) then deserializeField t' rest
    else Err SchemaError
  | TClass c => deserializeStruct c bs
  end.

(** Modelled from the spec: the fields of a record, in declared order
    ([./utils/serialize] is missing). *)
Fixpoint read_fields (fields : list (string * fieldType)) (bs : list byte)
    : result (gmap string value * list byte) :=
  match fields with
  | [] => Ok (∅, bs)
  | (name, t) :: rest =>
    '(v, bs) ← deserializeField t bs;
    '(props, bs) ← read_fields rest bs;
    Ok (<[name := v]> props, bs)
  end.
End fields.

(** Modelled from the spec: [serializeStruct] of [./utils/serialize]
    (missing).  A record emits its fields in declared order.  A tagged union
    needs exactly one populated slot, else [VariantError]; it emits the
    zero-based index of that slot as one byte, then the payload.  A class
    that the registry does not know is a [SchemaError].  [depth] bounds the
    nesting of classes. *)
Fixpoint serializeStruct (depth : nat) (schema : Schema) (obj : value)
    : result (list byte) :=
  match depth with
  | O => Err SchemaError
  | S depth' =>
    match obj with
    | VObject c props =>
      match schema_get schema c with
      | None => Err SchemaError
      | Some (Struct fields) =>
        parts ← mapM_result
          (λ '(name, t),
             serializeField (serializeStruct depth' schema) (get props name) t)
          fields;
        Ok (concat parts)
      | Some (Enum _ values) =>
        match populated_slots props 0 values with
        | [(idx, (name, t))] =>
          tag ← write_uint 1 (VInt (Z.of_nat idx));
          payload ← serializeField (serializeStruct depth' schema)
                      (get props name) t;
          Ok (tag ++ payload)
        | _ => Err VariantError
        end
      end
    | _ => Err SchemaError
    end
  end.

(** Modelled from the spec: [deserializeStruct] of [./utils/serialize]
    (missing).  The discriminant of a tagged union is one byte; a value
    that is not below the number of declared variants is a [SchemaError]. *)
Fixpoint deserializeStruct (depth : nat) (schema : Schema) (c : class)
    (bs : list byte) : result (value * list byte) :=
  match depth with
  | O => Err SchemaError
  | S depth' =>
    match schema_get schema c with
    | None => Err SchemaError
    | Some (Struct fields) =>
      '(props, rest) ← read_fields (deserializeStruct depth' schema) fields bs;
      Ok (VObject c props, rest)
    | Some (Enum _ values) =>
      '(idx, rest) ← read_uint 1 bs;
      match values !! Z.to_nat idx with
      | None => Err SchemaError
      | Some (name, t) =>
        '(payload, rest) ← deserializeField (deserializeStruct depth' schema) t rest;
        Ok (VObject c {[ name := payload ]}, rest)
      end
    end
  end.

(** Modelled from the spec: [serialize] of [./utils/serialize] (missing),
    the canonical encoding of an object of a class of the schema.  Classes
    nest no deeper than the registry has entries. *)
Definition serialize (schema : Schema) (obj : value) : result (list byte) :=
  serializeStruct (length schema) schema obj.

(** Modelled from the spec: [deserialize] of [./utils/serialize] (missing),
    decoding an object of class [c] from the front of the bytes. *)
Definition deserialize (schema : Schema) (c : class) (bs : list byte)
    : result value :=
  '(v, _) ← deserializeStruct (length schema) schema c bs; Ok v.

Definition Transaction_encode (this : value) : result (list byte) :=
  serialize SCHEMA this.

Definition Transaction_decode (bytes : list byte) : result value :=
  deserialize SCHEMA Transaction bytes.

Definition SignedTransaction_encode (this : value) : result (list byte) :=
  serialize SCHEMA this.

Definition SignedTransaction_decode (bytes : list byte) : result value :=
  deserialize SCHEMA SignedTransaction bytes.

(** ** SHA-256 ([js-sha256], FIPS 180-4) *)

Module SHA256.

Definition w32 (x : Z) : Z := x mod 2 ^ 32.
Definition add32 (x y : Z) : Z := w32 (x + y).
Definition rotr (n x : Z) : Z :=
  w32 (Z.lor (Z.shiftr x n) (Z.shiftl x (32 - n))).
Definition shr (n x : Z) : Z := Z.shiftr x n.
Definition not32 (x : Z) : Z := Z.lxor x 0xffffffff.

Definition Ch (x y z : Z) : Z := Z.lxor (Z.land x y) (Z.land (not32 x) z).
Definition Maj (x y z : Z) : Z :=
  Z.lxor (Z.lxor (Z.land x y) (Z.land x z)) (Z.land y z).
Definition Sigma0 (x : Z) : Z := Z.lxor (Z.lxor (rotr 2 x) (rotr 13 x)) (rotr 22 x).
Definition Sigma1 (x : Z) : Z := Z.lxor (Z.lxor (rotr 6 x) (rotr 11 x)) (rotr 25 x).
Definition sigma0 (x : Z) : Z := Z.lxor (Z.lxor (rotr 7 x) (rotr 18 x)) (shr 3 x).
Definition sigma1 (x : Z) : Z := Z.lxor (Z.lxor (rotr 17 x) (rotr 19 x)) (shr 10 x).

(** The primes among 2, ..., 311: the first 64. *)
Definition is_prime (n : Z) : bool :=
  forallb (λ d, negb (n mod d =? 0)) (seqZ 2 (n - 2)).

Definition primes : list Z := filter (λ n, is_prime n = true) (seqZ 2 310).

(** The integer cube root of [n], bit by bit from bit [bits - 1] down. *)
Fixpoint cube_root (bits : nat) (r n : Z) : Z :=
  match bits with
  | O => r
  | S bits' =>
    let r' := r + 2 ^ Z.of_nat bits' in
    cube_root bits' (if r' * r' * r' <=? n then r' else r) n
  end.

(** The round constants: the first 32 bits of the fractional parts of the
    cube roots of the first 64 primes. *)
Definition K : list Z :=
  Eval vm_compute in map (λ p, w32 (cube_root 40 0 (p * 2 ^ 96))) primes.

Record state : Type := State {
h0 : Z; h1 : Z; h2 : Z; h3 : Z; h4 : Z; h5 : Z; h6 : Z; h7 : Z }.

(** The initial hash value: the first 32 bits of the fractional parts of
    the square roots of the first 8 primes. *)
Definition initial : state :=
  Eval vm_compute in
  match map (λ p, w32 (Z.sqrt (p * 2 ^ 64))) (take 8 primes) with
  | [a; b; c; d; e; f; g; h] => State a b c d e f g h
  | _ => State 0 0 0 0 0 0 0 0
  end.

(** Big-endian bytes of [n], [w] of them, and back. *)
Fixpoint be_bytes (w : nat) (n : Z) : list byte :=
  match w with
  | O => []
  | S w' => byte_of_Z (n / 256 ^ Z.of_nat w') :: be_bytes w' n
  end.

Definition be_value (bs : list byte) : Z :=
  fold_left (λ acc b, 256 * acc + Z_of_byte b) bs 0.

(** The message, a 1 bit, zeros up to 56 modulo 64 bytes, and the length
    of the message in bits on 8 bytes. *)
Definition pad (message : list byte) : list byte :=
  let len := length message in
  let zeros := ((64 - (len + 9) mod 64) mod 64)%nat in
  message ++ [Byte.x80] ++ replicate zeros Byte.x00
          ++ be_bytes 8 (8 * Z.of_nat len).

Fixpoint words (n : nat) (bs : list byte) : list Z :=
  match n with
  | O => []
  | S n' => be_value (take 4 bs) :: words n' (drop 4 bs)
  end.

(** The message schedule: [n] more words after the ones in [w]. *)
Fixpoint schedule (n : nat) (w : list Z) : list Z :=
  match n with
  | O => w
  | S n' =>
    let t := length w in
    let at_ i := nth (t - i) w 0 in
    schedule n'
      (w ++ [add32 (add32 (sigma1 (at_ 2%nat)) (at_ 7%nat))
                   (add32 (sigma0 (at_ 15%nat)) (at_ 16%nat))])
  end.

Definition round (s : state) (kw : Z * Z) : state :=
  let '(k, w) := kw in
  let t1 := add32 (add32 (add32 (h7 s) (Sigma1 (h4 s)))
                         (add32 (Ch (h4 s) (h5 s) (h6 s)) k)) w in
  let t2 := add32 (Sigma0 (h0 s)) (Maj (h0 s) (h1 s) (h2 s)) in
  State (add32 t1 t2) (h0 s) (h1 s) (h2 s)
        (add32 (h3 s) t1) (h4 s) (h5 s) (h6 s).

Definition compress (s : state) (block : list byte) : state :=
  let w := schedule 48 (words 16 block) in
  let s' := fold_left round (zip K w) s in
  State (add32 (h0 s) (h0 s')) (add32 (h1 s) (h1 s'))
        (add32 (h2 s) (h2 s')) (add32 (h3 s) (h3 s'))
        (add32 (h4 s) (h4 s')) (add32 (h5 s) (h5 s'))
        (add32 (h6 s) (h6 s')) (add32 (h7 s) (h7 s')).

Fixpoint blocks (n : nat) (s : state) (bs : list byte) : state :=
  match n with
  | O => s
  | S n' => blocks n' (compress s (take 64 bs)) (drop 64 bs)
  end.

Definition digest (s : state) : list byte :=
  be_bytes 4 (h0 s) ++ be_bytes 4 (h1 s) ++ be_bytes 4 (h2 s)
  ++ be_bytes 4 (h3 s) ++ be_bytes 4 (h4 s) ++ be_bytes 4 (h5 s)
  ++ be_bytes 4 (h6 s) ++ be_bytes 4 (h7 s).

(** [sha256.array(message)] *)
Definition array (message : list byte) : list byte :=
  let padded := pad message in
  digest (blocks (length padded / 64) initial padded).

End SHA256.

(** ** The signing protocol *)

(** The two requests made to the external [Signer]. *)
Inductive call : Type :=
| GetPublicKey (accountId networkId : value)
| SignMessage (message : list byte) (accountId networkId : value).

(** The steps of the protocol, as the specification names them. *)
Inductive step : Type :=
| Assemble | Encode | Hash | KeyRetrieval | Signing | Package.

#[global] Instance step_eq_dec : EqDecision step.
Proof. solve_decision. Defined.

(** An asynchronous function: it returns, throws, performs a local step and
    goes on, or awaits the answer to a request and goes on with it. *)
Inductive prog (A : Type) : Type :=
| Return (a : A)
| Throw (e : error)
| Do (s : step) (k : prog A)
| Await (c : call) (k : value → prog A).
Arguments Return {A} a.
Arguments Throw {A} e.
Arguments Do {A} s k.
Arguments Await {A} c k.

Fixpoint prog_bind {A B} (f : A → prog B) (p : prog A) : prog B :=
  match p with
  | Return a => f a
  | Throw e => Throw e
  | Do s k => Do s (prog_bind f k)
  | Await c k => Await c (λ v, prog_bind f (k v))
  end.

#[global] Instance prog_ret : MRet prog := λ A a, Return a.
#[global] Instance prog_mbind : MBind prog := λ A B f p, prog_bind f p.

Definition await (c : call) : prog value := Await c Return.

(** A synchronous statement: the step is entered, then its computation
    yields a value or throws. *)
Definition local {A} (s : step) (r : result A) : prog A :=
  Do s (match r with Ok a => Return a | Err e => Throw e end).

Definition signTransaction_body
    (receiverId nonce actions blockHash accountId networkId : value)
    : prog (list byte * value) :=
  publicKey ← await (GetPublicKey accountId networkId);
  transaction ← local Assemble
    (Ok (createTransaction accountId publicKey receiverId nonce actions blockHash));
  message ← local Encode (serialize SCHEMA transaction);
  hash ← local Hash (Ok (SHA256.array message));
  signature ← await (SignMessage message accountId networkId);
  signedTx ← local Package
    (keyType ← get_prop publicKey "keyType";
     data ← get_prop signature "signature";
     Ok (new_Assignable SignedTransaction
           {[ "transaction" := transaction;
              "signature" := new_Assignable Signature
                 {[ "keyType" := keyType; "data" := data ]} ]}));
  Return (hash, signedTx).

(** The [Signer] capability, with a state of its own; a request resolves to
    a value or is rejected. *)
Record Signer (S : Type) : Type := {
  getPublicKey : value → value → S → result value * S;
  signMessage : list byte → value → value → S → result value * S
}.
Arguments getPublicKey {S} _ _ _ _.
Arguments signMessage {S} _ _ _ _ _.

Definition perform {S} (signer : Signer S) (c : call) (σ : S) : result value * S :=
  match c with
  | GetPublicKey accountId networkId => getPublicKey signer accountId networkId σ
  | SignMessage message accountId networkId =>
    signMessage signer message accountId networkId σ
  end.

(** What a run leaves behind, in order. *)
Inductive event : Type :=
| Entered (s : step)
| Called (c : call).

Definition step_of (e : event) : step :=
  match e with
  | Entered s => s
  | Called (GetPublicKey _ _) => KeyRetrieval
  | Called (SignMessage _ _ _) => Signing
  end.

Record outcome (S A : Type) : Type := Outcome {
  returned : result A;
  final : S;
  trace : list event
}.
Arguments Outcome {S A} _ _ _.
Arguments returned {S A} _.
Arguments final {S A} _.
Arguments trace {S A} _.

Definition logged {S A} (e : event) (o : outcome S A) : outcome S A :=
  Outcome (returned o) (final o) (e :: trace o).

Fixpoint run {S A} (signer : Signer S) (p : prog A) (σ : S) : outcome S A :=
  match p with
  | Return a => Outcome (Ok a) σ []
  | Throw e => Outcome (Err e) σ []
  | Do s k => logged (Entered s) (run signer k σ)
  | Await c k =>
    match perform signer c σ with
    | (Ok v, σ') => logged (Called c) (run signer (k v) σ')
    | (Err e, σ') => Outcome (Err e) σ' [Called c]
    end
  end.

Definition signTransaction {S}
    (receiverId nonce actions blockHash : value) (signer : Signer S)
    (accountId networkId : value) (σ : S) : outcome S (list byte * value) :=
  run signer
    (signTransaction_body receiverId nonce actions blockHash accountId networkId) σ.

(** ** Well-formed values *)

(** The values that conform to a type of the schema: integers within their
    width, strings of valid UTF-8, byte arrays of the declared length,
    counts that fit the u32 prefix, records with exactly their declared
    fields, tagged unions with exactly one populated slot and nothing
    else. *)
Definition wf_uint (w : nat) (v : value) : bool :=
  match v with VInt n => bool_decide (in_range w n) | _ => false end.

Definition fits_u32 (n : nat) : bool := bool_decide (in_range 4 (Z.of_nat n)).

Section wf_fields.
Variable wf_struct : class → value → bool.

Fixpoint wf_field (t : fieldType) (v : value) : bool :=
  match t with
  | TU8 | TU16 | TU32 | TU64 | TU128 => wf_uint (width t) v
  | TString =>
    match v with
    | VString s =>
      utf8_valid (list_byte_of_string s)
      && fits_u32 (length (list_byte_of_string s))
    | _ => false
    end
  | TFixed n =>
    match v with VBytes b => bool_decide (length b = n) | _ => false end
  | TArray t' =>
    match t', v with
    | TU8, VBytes b => fits_u32 (length b)
    | TU8, _ => false
    | _, VArray l => fits_u32 (length l) && forallb (wf_field t') l
    | _, _ => false
    end
  | TOption t' => is_undefined v || wf_field t' v
  | TClass c => wf_struct c v
  end.
End wf_fields.

Fixpoint wf_struct (depth : nat) (schema : Schema) (c : class) (v : value) : bool :=
  match depth with
  | O => false
  | S depth' =>
    match v with
    | VObject c' props =>
      bool_decide (c = c') &&
      match schema_get schema c with
      | None => false
      | Some (Struct fields) =>
        bool_decide (dom props = list_to_set fields.*1)
        && forallb (λ '(name, t),
                      wf_field (wf_struct depth' schema) t (get props name))
                   fields
      | Some (Enum _ values) =>
        match populated_slots props 0 values with
        | [(idx, (name, t))] =>
          bool_decide (dom props = {[ name ]})
          && bool_decide (in_range 1 (Z.of_nat idx))
          && wf_field (wf_struct depth' schema) t (get props name)
        | _ => false
        end
      end
    | _ => false
    end
  end.

Definition well_formed (schema : Schema) (c : class) (v : value) : bool :=
  wf_struct (length schema) schema c v.

(** ** Notions used in the statements *)

(** The encoder produces bytes from which the decoder reads [v] back,
    whatever follows them. *)
Definition inverts (ser : result (list byte))
    (de : list byte → result (value * list byte)) (v : value) : Prop :=
  ∃ bs, ser = Ok bs ∧ ∀ rest, de (bs ++ rest) = Ok (v, rest).

(** The record that [read_fields] rebuilds from the fields of [props]. *)
Definition rebuilt (props : gmap string value)
    (fields : list (string * fieldType)) : gmap string value :=
  foldr (λ '(name, _) m, <[name := get props name]> m) ∅ fields.

(** The names of the populated slots of a tagged union, among the declared
    ones. *)
Definition populated_names (props : gmap string value)
    (values : list (string * fieldType)) : list string :=
  filter (λ name, populated props name = true) values.*1.

(** The variants that the schema declares for a tagged union. *)
Definition variants (schema : Schema) (c : class) : list (string * fieldType) :=
  match schema_get schema c with
  | Some (Enum _ values) => values
  | _ => []
  end.

(** A computation that can fail in one way only. *)
Definition fails_only_with {A} (E : error) (r : result A) : Prop :=
  ∀ e, r = Err e → e = E.

(** The types without a class of the schema inside. *)
Fixpoint flat (t : fieldType) : bool :=
  match t with
  | TArray t' | TOption t' => flat t'
  | TClass _ => false
  | _ => true
  end.

(** The signed transaction that the last step makes. *)
Definition package (transaction publicKey signature : value) : result value :=
  keyType ← get_prop publicKey "keyType";
  data ← get_prop signature "signature";
  Ok (new_Assignable SignedTransaction
        {[ "transaction" := transaction;
           "signature" := new_Assignable Signature
              {[ "keyType" := keyType; "data" := data ]} ]}).

(** The messages handed to [signMessage] during a run. *)
Definition signed_messages (tr : list event) : list (list byte) :=
  omap (λ e, match e with
             | Called (SignMessage message _ _) => Some message
             | _ => None
             end) tr.


(** The builders that inspect [arguments.length], each with its arity and
    with what its error message expects. *)
Definition checked_builders
    : list ((list value → result value) * nat * string) :=
  [ (fullAccessKey, 0%nat, "none");
    (createAccount, 0%nat, "none");
    (deployContract, 1%nat, "code");
    (functionCall, 4%nat, "methodName, args, gas, deposit");
    (transfer, 1%nat, "deposit");
    (stake, 2%nat, "stake and publicKey");
    (addKey, 2%nat, "publicKey and accessKey");
    (deleteKey, 1%nat, "publicKey");
    (deleteAccount, 1%nat, "beneficiaryId") ].

(** The order of the steps as the specification lists them, and as the
    function performs them. *)
Definition listed_order : list step :=
  [Assemble; Encode; Hash; KeyRetrieval; Signing; Package].

Definition performed_order : list step :=
  [KeyRetrieval; Assemble; Encode; Hash; Signing; Package].

(** The classes that a type refers to. *)
Fixpoint refs (t : fieldType) : list class :=
  match t with
  | TArray t' | TOption t' => refs t'
  | TClass c => [c]
  | _ => []
  end.

Definition descriptor_types (d : descriptor) : list fieldType :=
  match d with
  | Struct fields => fields.*2
  | Enum _ values => values.*2
  end.

(** Every class of the schema refers to classes of lower rank only. *)
Definition ranked (rank : class → nat) (schema : Schema) : bool :=
  forallb (λ '(c, d),
    forallb (λ t, forallb (λ c', bool_decide (rank c' < rank c)%nat) (refs t))
            (descriptor_types d)) schema.

(** How deep the classes of [SCHEMA] nest. *)
Definition SCHEMA_rank (c : class) : nat :=
  match c with
  | AccessKeyPermission | Stake | DeleteKey => 1
  | AccessKey => 2
  | AddKey => 3
  | Action => 4
  | Transaction => 5
  | SignedTransaction => 6
  | _ => 0
  end.

(** ** Sample data *)

Definition sample_publicKey : value :=
  new_Assignable PublicKey
    {[ "keyType" := VInt 0; "data" := VBytes (replicate 32 Byte.x07) ]}.

Definition sample_blockHash : value := VBytes (replicate 32 Byte.x09).

Definition sample_actions : value :=
  match transfer [VInt 1000000000000000000000000] with
  | Ok a => VArray [a]
  | Err _ => VArray []
  end.

(** A signer that answers every request with a fixed public key and a fixed
    signature, and keeps the requests it received. *)
Definition mock_signer : Signer (list call) := {|
  getPublicKey accountId networkId σ :=
    (Ok sample_publicKey, σ ++ [GetPublicKey accountId networkId]);
  signMessage message accountId networkId σ :=
    (Ok (new_Assignable PlainObject
           {[ "signature" := VBytes (replicate 64 Byte.x2a) ]}),
     σ ++ [SignMessage message accountId networkId])
|}.

Definition mock_run : outcome (list call) (list byte * value) :=
  signTransaction (VString "bob.test") (VInt 1) sample_actions sample_blockHash
    mock_signer (VString "alice.test") (VString "testnet") [].

Definition mock_pair : list byte * value :=
  match returned mock_run with
  | Ok p => p
  | Err _ => ([], VUndefined)
  end.

(** A transaction with one action of each kind, signed. *)
Definition sample_all_actions : result value :=
  a0 ← createAccount [];
  a1 ← deployContract [VBytes [Byte.x00; Byte.x61; Byte.x73; Byte.x6d]];
  a2 ← functionCall [VString "set_greeting"; VBytes [Byte.x7b; Byte.x7d];
                     VInt 30000000000000; VInt 0];
  a3 ← transfer [VInt 1000000000000000000000000];
  a4 ← stake [VInt 5; sample_publicKey];
  k1 ← functionCallAccessKey
         [VString "bob.test"; VArray [VString "get"; VString "set"]; VInt 250];
  a5 ← addKey [sample_publicKey; k1];
  k2 ← functionCallAccessKey [VString "bob.test"; VArray []];
  a5' ← addKey [sample_publicKey; k2];
  k3 ← fullAccessKey [];
  a5'' ← addKey [sample_publicKey; k3];
  a6 ← deleteKey [sample_publicKey];
  a7 ← deleteAccount [VString "carol.test"];
  Ok (VArray [a0; a1; a2; a3; a4; a5; a5'; a5''; a6; a7]).

Definition sample_signed : value :=
  match sample_all_actions with
  | Ok actions =>
    new_Assignable SignedTransaction
      {[ "transaction" :=
           createTransaction (VString "alice.test") sample_publicKey
             (VString "bob.test") (VInt 1) actions sample_blockHash;
         "signature" := new_Assignable Signature
           {[ "keyType" := VInt 0; "data" := VBytes (replicate 64 Byte.x2a) ]} ]}
  | Err _ => VUndefined
  end.

(** ** Further notions *)

(** The requests made to the signer during a run, in order. *)
Definition signer_calls (tr : list event) : list call :=
  omap (λ e, match e with Called c => Some c | _ => None end) tr.

(** [v.name] where [v] is not [undefined]. *)
Definition prop_of (v : value) (name : string) : value :=
  match v with
  | VObject _ props => get props name
  | _ => VUndefined
  end.

(** A signer that has no key, one that has a key but refuses to sign, one
    whose answer to [signMessage] is [undefined], and one that returns a
    signature of three bytes. *)
Definition keyless_signer : Signer (list call) := {|
  getPublicKey accountId networkId σ :=
    (Err (SignerError "no key"), σ ++ [GetPublicKey accountId networkId]);
  signMessage message accountId networkId σ :=
    (Err (SignerError "no key"), σ ++ [SignMessage message accountId networkId])
|}.

Definition refusing_signer : Signer (list call) := {|
  getPublicKey accountId networkId σ :=
    (Ok sample_publicKey, σ ++ [GetPublicKey accountId networkId]);
  signMessage message accountId networkId σ :=
    (Err (SignerError "rejected"), σ ++ [SignMessage message accountId networkId])
|}.

Definition silent_signer : Signer (list call) := {|
  getPublicKey accountId networkId σ :=
    (Ok sample_publicKey, σ ++ [GetPublicKey accountId networkId]);
  signMessage message accountId networkId σ :=
    (Ok VUndefined, σ ++ [SignMessage message accountId networkId])
|}.

Definition short_signer : Signer (list call) := {|
  getPublicKey accountId networkId σ :=
    (Ok sample_publicKey, σ ++ [GetPublicKey accountId networkId]);
  signMessage message accountId networkId σ :=
    (Ok (new_Assignable PlainObject
           {[ "signature" := VBytes [Byte.x01; Byte.x02; Byte.x03] ]}),
     σ ++ [SignMessage message accountId networkId])
|}.

(** The run of [signTransaction] on the sample transfer, with a given
    signer. *)
Definition sample_run (signer : Signer (list call))
    : outcome (list call) (list byte * value) :=
  signTransaction (VString "bob.test") (VInt 1) sample_actions sample_blockHash
    signer (VString "alice.test") (VString "testnet") [].

Definition sample_transaction : value :=
  createTransaction (VString "alice.test") sample_publicKey (VString "bob.test")
    (VInt 1) sample_actions sample_blockHash.

(** A well-formed value of a type of [SCHEMA]. *)
Definition wf_value (t : fieldType) (v : value) : bool :=
  wf_field (wf_struct (length SCHEMA) SCHEMA) t v.

(** Each builder with the class it builds and, parameter by parameter, the
    type that [SCHEMA] gives to the field the parameter fills;
    [functionCallAccessKey] is listed with and without its optional
    allowance. *)
Definition builder_types
    : list ((list value → result value) * class * list fieldType) :=
  [ (fullAccessKey, AccessKey, []);
    (functionCallAccessKey, AccessKey, [TString; TArray TString; TOption TU128]);
    (functionCallAccessKey, AccessKey, [TString; TArray TString]);
    (createAccount, Action, []);
    (deployContract, Action, [TArray TU8]);
    (functionCall, Action, [TString; TArray TU8; TU64; TU128]);
    (transfer, Action, [TU128]);
    (stake, Action, [TU128; TClass PublicKey]);
    (addKey, Action, [TClass PublicKey; TClass AccessKey]);
    (deleteKey, Action, [TClass PublicKey]);
    (deleteAccount, Action, [TString]) ].

Definition sample_accessKey : value :=
  match functionCallAccessKey
          [VString "bob.test"; VArray [VString "get"; VString "set"]; VInt 250]
  with
  | Ok k => k
  | Err _ => VUndefined
  end.

(** The names that a descriptor declares: fields or variants. *)
Definition descriptor_names (d : descriptor) : list string :=
  match d with
  | Struct fields => fields.*1
  | Enum _ values => values.*1
  end.


(** The builders of actions, each with the discriminant of its variant. *)
Definition action_tags : list ((list value → result value) * Z) :=
  [ (createAccount, 0); (deployContract, 1); (functionCall, 2);
    (transfer, 3); (stake, 4); (addKey, 5); (deleteKey, 6);
    (deleteAccount, 7) ].

Definition sample_stake : value :=
  match stake [VInt 5; sample_publicKey] with
  | Ok a => a
  | Err _ => VUndefined
  end.

Definition sample_stake_bytes : list byte :=
  match serialize SCHEMA sample_stake with
  | Ok bytes => bytes
  | Err _ => []
  end.

Definition mock_message : list byte :=
  match serialize SCHEMA sample_transaction with
  | Ok bytes => bytes
  | Err _ => []
  end.

(** ** The classes as the module declares them *)

(** The types that the class declarations give to their properties. *)
Inductive tsType : Type :=
| TsString                       (* string *)
| TsNumber                       (* number *)
| TsBN                           (* BN *)
| TsKeyType                      (* KeyType *)
| TsUint8Array                   (* Uint8Array *)
| TsArray (t : tsType)           (* T[] *)
| TsOptional (t : tsType)        (* name?: T *)
| TsClass (c : class).

(** The properties that each class declares, in order.  [PublicKey] is
    imported and declared elsewhere. *)
Definition declared (c : class) : list (string * tsType) :=
  match c with
  | FunctionCallPermission =>
    [("allowance", TsOptional TsBN); ("receiverId", TsString);
     ("methodNames", TsArray TsString)]
  | FullAccessPermission => []
  | AccessKeyPermission =>
    [("functionCall", TsClass FunctionCallPermission);
     ("fullAccess", TsClass FullAccessPermission)]
  | AccessKey =>
    [("nonce", TsNumber); ("permission", TsClass AccessKeyPermission)]
  | CreateAccount => []
  | DeployContract => [("code", TsUint8Array)]
  | FunctionCall =>
    [("methodName", TsString); ("args", TsUint8Array); ("gas", TsBN);
     ("deposit", TsBN)]
  | Transfer => [("deposit", TsBN)]
  | Stake => [("stake", TsBN); ("publicKey", TsClass PublicKey)]
  | AddKey => [("publicKey", TsClass PublicKey); ("accessKey", TsClass AccessKey)]
  | DeleteKey => [("publicKey", TsClass PublicKey)]
  | DeleteAccount => [("beneficiaryId", TsString)]
  | Signature => [("keyType", TsKeyType); ("data", TsUint8Array)]
  | Transaction =>
    [("signerId", TsString); ("publicKey", TsClass PublicKey);
     ("nonce", TsNumber); ("receiverId", TsString);
     ("actions", TsArray (TsClass Action)); ("blockHash", TsUint8Array)]
  | SignedTransaction =>
    [("transaction", TsClass Transaction); ("signature", TsClass Signature)]
  | Action =>
    [("createAccount", TsClass CreateAccount);
     ("deployContract", TsClass DeployContract);
     ("functionCall", TsClass FunctionCall);
     ("transfer", TsClass Transfer);
     ("stake", TsClass Stake);
     ("addKey", TsClass AddKey);
     ("deleteKey", TsClass DeleteKey);
     ("deleteAccount", TsClass DeleteAccount)]
  | PublicKey | PlainObject => []
  end.

(** A declared type and a schema type that describe the same values: a
    number or a [BN] for an unsigned integer, a [Uint8Array] for bytes. *)
Fixpoint describes (ts : tsType) (t : fieldType) : bool :=
  match ts, t with
  | TsString, TString => true
  | (TsNumber | TsBN), (TU8 | TU16 | TU32 | TU64 | TU128) => true
  | TsKeyType, TU8 => true
  | TsUint8Array, (TFixed _ | TArray TU8) => true
  | TsArray ts', TArray t' => describes ts' t'
  | TsOptional ts', TOption t' => describes ts' t'
  | TsClass c, TClass c' => bool_decide (c = c')
  | _, _ => false
  end.

Definition descriptor_fields (d : descriptor) : list (string * fieldType) :=
  match d with
  | Struct fields => fields
  | Enum _ values => values
  end.

(** * Properties *)

(** ** Bytes and integers *)

Lemma Z_of_byte_range b : 0 ≤ Z_of_byte b < 256.
Proof.
  unfold Z_of_byte. pose proof (Byte.to_N_bounded b). lia.
Qed.

Lemma Z_of_byte_of_Z n : Z_of_byte (byte_of_Z n) = n mod 256.
Proof.
  unfold Z_of_byte, byte_of_Z.
  assert (Hr : 0 ≤ n mod 256 < 256) by (apply Z.mod_pos_bound; lia).
  destruct (Byte.of_N (Z.to_N (n mod 256))) as [b|] eqn:E.
  - apply Byte.to_of_N in E. simpl. rewrite E. lia.
  - apply Byte.of_N_None_iff in E. lia.
Qed.

Lemma byte_of_Z_of_byte b : byte_of_Z (Z_of_byte b) = b.
Proof.
  unfold byte_of_Z. rewrite Z.mod_small by apply Z_of_byte_range.
  unfold Z_of_byte. rewrite N2Z.id, Byte.of_to_N. reflexivity.
Qed.

Lemma length_le_bytes w n : length (le_bytes w n) = w.
Proof. revert n. induction w; intros; simpl; auto. Qed.

Lemma le_value_le_bytes w n : in_range w n → le_value (le_bytes w n) = n.
Proof.
  unfold in_range. revert n. induction w as [|w IH]; intros n Hn.
  - simpl in *. lia.
  - simpl le_bytes. simpl le_value. rewrite Z_of_byte_of_Z.
    rewrite IH.
    + pose proof (Z.div_mod n 256). lia.
    + rewrite Nat2Z.inj_succ, Z.pow_succ_r in Hn by lia.
      split; [apply Z.div_pos; lia | apply Z.div_lt_upper_bound; lia].
Qed.

Lemma le_value_range bs : in_range (length bs) (le_value bs).
Proof.
  unfold in_range. induction bs as [|b bs IH]; simpl le_value.
  - simpl. lia.
  - pose proof (Z_of_byte_range b).
    cbn [length]. rewrite Nat2Z.inj_succ, Z.pow_succ_r by lia. lia.
Qed.

Lemma le_bytes_le_value bs : le_bytes (length bs) (le_value bs) = bs.
Proof.
  induction bs as [|b bs IH]; simpl; [reflexivity|].
  pose proof (Z_of_byte_range b).
  rewrite (Z.mul_comm 256 (le_value bs)).
  f_equal.
  - rewrite <- (byte_of_Z_of_byte b) at 2. unfold byte_of_Z.
    rewrite Z_mod_plus_full. reflexivity.
  - rewrite Z_div_plus_full by lia.
    rewrite (Z.div_small (Z_of_byte b)) by lia. exact IH.
Qed.

(** ** Readers undo writers *)

Lemma read_bytes_app b rest : read_bytes (length b) (b ++ rest) = Ok (b, rest).
Proof.
  unfold read_bytes. rewrite decide_True by (rewrite length_app; lia).
  rewrite take_app_length, drop_app_length. reflexivity.
Qed.

Lemma read_bytes_short n bs : (length bs < n)%nat → read_bytes n bs = Err SchemaError.
Proof. intros H. unfold read_bytes. rewrite decide_False by lia. reflexivity. Qed.

Lemma write_uint_read w v bs rest :
  write_uint w v = Ok bs →
  ∃ n, v = VInt n ∧ in_range w n ∧ read_uint w (bs ++ rest) = Ok (n, rest).
Proof.
  unfold write_uint. destruct v as [|n| | | |]; try discriminate.
  case_decide; [|discriminate]. intros [= <-].
  exists n. split; [reflexivity|]. split; [assumption|].
  unfold read_uint.
  rewrite <- (length_le_bytes w n) at 1. rewrite read_bytes_app.
  simpl. rewrite le_value_le_bytes by assumption. reflexivity.
Qed.

Lemma write_u32_read n bs rest :
  write_u32 n = Ok bs → read_uint 4 (bs ++ rest) = Ok (Z.of_nat n, rest).
Proof.
  intros H. destruct (write_uint_read _ _ _ rest H) as (m & [= <-] & _ & Hr).
  exact Hr.
Qed.

Lemma write_uint_ok w n : in_range w n → write_uint w (VInt n) = Ok (le_bytes w n).
Proof. intros H. unfold write_uint. rewrite decide_True by assumption. reflexivity. Qed.

Lemma write_uint_error w v e : write_uint w v = Err e → e = SchemaError.
Proof.
  unfold write_uint. destruct v; try (intros [= <-]; reflexivity).
  case_decide; [discriminate|]. intros [= <-]; reflexivity.
Qed.

Lemma read_uint_app b rest : read_uint (length b) (b ++ rest) = Ok (le_value b, rest).
Proof. unfold read_uint. rewrite read_bytes_app. reflexivity. Qed.

Lemma read_uint_le w n rest :
  in_range w n → read_uint w (le_bytes w n ++ rest) = Ok (n, rest).
Proof.
  intros H. rewrite <- (length_le_bytes w n) at 1.
  rewrite read_uint_app, le_value_le_bytes by exact H. reflexivity.
Qed.

Lemma read_u8_cons b rest : read_uint 1 (b :: rest) = Ok (Z_of_byte b, rest).
Proof.
  pose proof (read_uint_app [b] rest) as H. simpl in H.
  rewrite Z.add_0_r in H. exact H.
Qed.

Lemma fits_u32_write n : fits_u32 n = true → write_u32 n = Ok (le_bytes 4 (Z.of_nat n)).
Proof.
  unfold fits_u32, write_u32. intros H%bool_decide_eq_true.
  apply write_uint_ok, H.
Qed.

(** ** Decoding inverts encoding *)

Lemma array_roundtrip (f : value → result (list byte))
    (read : list byte → result (value * list byte)) (l : list value) :
  (∀ x, x ∈ l → inverts (f x) read x) →
  ∃ items, mapM_result f l = Ok items
    ∧ ∀ rest, read_array read (length l) (concat items ++ rest) = Ok (l, rest).
Proof.
  induction l as [|x l IH]; intros H.
  - exists []. split; reflexivity.
  - destruct (H x) as (bs & Hs & Hd); [left|].
    destruct IH as (items & Hm & Hr); [intros y Hy; apply H; right; exact Hy|].
    exists (bs :: items). split.
    + simpl. rewrite Hs. simpl. rewrite Hm. reflexivity.
    + intros rest. simpl. rewrite <- app_assoc, Hd. simpl.
      rewrite Hr. reflexivity.
Qed.

Section field_roundtrip.
Variable ser : value → result (list byte).
Variable de : class → list byte → result (value * list byte).
Variable wfS : class → value → bool.
Hypothesis classes : ∀ c v, wfS c v = true →
  (∃ props, v = VObject c props) ∧ inverts (ser v) (de c) v.

Lemma uint_roundtrip w v :
  wf_uint w v = true →
  inverts (write_uint w v)
    (λ bs, '(n, rest) ← read_uint w bs; Ok (VInt n, rest)) v.
Proof.
  destruct v as [|n| | | |]; try discriminate. simpl.
  intros H%bool_decide_eq_true.
  exists (le_bytes w n). split; [apply write_uint_ok, H|].
  intros rest. rewrite read_uint_le by exact H. reflexivity.
Qed.

Lemma string_roundtrip v :
  wf_field wfS TString v = true → inverts (write_string v) read_string v.
Proof.
  destruct v as [| |s| | |]; try discriminate. simpl.
  intros [Hu Hl]%andb_prop.
  exists (le_bytes 4 (Z.of_nat (length (list_byte_of_string s)))
          ++ list_byte_of_string s).
  split.
  - rewrite Hu, (fits_u32_write _ Hl). reflexivity.
  - intros rest. unfold read_string. rewrite <- app_assoc.
    apply bool_decide_eq_true in Hl.
    rewrite read_uint_le by exact Hl. simpl.
    rewrite Nat2Z.id, read_bytes_app. simpl.
    rewrite Hu, string_of_list_byte_of_string. reflexivity.
Qed.

Lemma bytes_roundtrip b :
  fits_u32 (length b) = true →
  inverts (len ← write_u32 (length b); Ok (len ++ b))
    (λ bs, '(len, rest) ← read_uint 4 bs;
           '(b, rest) ← read_bytes (Z.to_nat len) rest; Ok (VBytes b, rest))
    (VBytes b).
Proof.
  intros Hl. exists (le_bytes 4 (Z.of_nat (length b)) ++ b). split.
  - rewrite (fits_u32_write _ Hl). reflexivity.
  - intros rest. rewrite <- app_assoc.
    apply bool_decide_eq_true in Hl.
    rewrite read_uint_le by exact Hl. simpl.
    rewrite Nat2Z.id, read_bytes_app. reflexivity.
Qed.

Lemma elements_roundtrip t l :
  (∀ v, wf_field wfS t v = true →
        inverts (serializeField ser v t) (deserializeField de t) v) →
  fits_u32 (length l) = true →
  forallb (wf_field wfS t) l = true →
  inverts
    (len ← write_u32 (length l);
     items ← mapM_result (λ x, serializeField ser x t) l;
     Ok (len ++ concat items))
    (λ bs, '(len, rest) ← read_uint 4 bs;
           '(l, rest) ← read_array (deserializeField de t) (Z.to_nat len) rest;
           Ok (VArray l, rest))
    (VArray l).
Proof.
  intros IH Hl Hall.
  destruct (array_roundtrip (λ x, serializeField ser x t)
              (deserializeField de t) l) as (items & Hm & Hr).
  { intros x Hx. apply IH.
    rewrite forallb_forall in Hall. apply Hall, list_elem_of_In, Hx. }
  exists (le_bytes 4 (Z.of_nat (length l)) ++ concat items). split.
  - rewrite (fits_u32_write _ Hl). simpl. rewrite Hm. reflexivity.
  - intros rest. rewrite <- app_assoc.
    apply bool_decide_eq_true in Hl.
    rewrite read_uint_le by exact Hl. simpl.
    rewrite Nat2Z.id, Hr. reflexivity.
Qed.

Lemma field_roundtrip t : ∀ v,
  wf_field wfS t v = true →
  inverts (serializeField ser v t) (deserializeField de t) v.
Proof.
  induction t as [| | | | | |n|t IH|t IH|c]; intros v Hwf;
    try (apply uint_roundtrip, Hwf).
  - apply string_roundtrip, Hwf.
  - destruct v as [| | |b| |]; try discriminate. simpl in Hwf.
    apply bool_decide_eq_true in Hwf. subst n.
    exists b. split.
    + simpl. rewrite decide_True by reflexivity. reflexivity.
    + intros rest. simpl. rewrite read_bytes_app. reflexivity.
  - destruct v as [| | |b|l|]; destruct t; try discriminate;
      first [ apply bytes_roundtrip, Hwf
            | apply andb_prop in Hwf as [Hl Hall];
              apply (elements_roundtrip _ l IH Hl Hall) ].
  - simpl in Hwf. destruct (is_undefined v) eqn:Hu.
    + destruct v; try discriminate.
      exists [Byte.x00]. split; [reflexivity|].
      intros rest. cbn [deserializeField app].
      rewrite read_u8_cons. reflexivity.
    + simpl in Hwf. destruct (IH v Hwf) as (bs & Hs & Hd).
      exists (Byte.x01 :: bs). split.
      * destruct v; try discriminate; cbn [serializeField];
          rewrite Hs; reflexivity.
      * intros rest. cbn [deserializeField app].
        rewrite read_u8_cons. apply Hd.
  - simpl in Hwf. destruct (classes c v Hwf) as ((props & ->) & Hinv).
    simpl. rewrite decide_True by reflexivity. exact Hinv.
Qed.
End field_roundtrip.

Lemma rebuilt_lookup props fields i :
  rebuilt props fields !! i
  = if decide (i ∈ fields.*1) then Some (get props i) else None.
Proof.
  induction fields as [|[name t] fields IH].
  - unfold rebuilt. cbn [foldr]. rewrite lookup_empty.
    destruct (decide (i ∈ ([] : list (string * fieldType)).*1)) as [H|H];
      [apply elem_of_nil in H; contradiction | reflexivity].
  - change (rebuilt props ((name, t) :: fields))
      with (<[name := get props name]> (rebuilt props fields)).
    change (((name, t) :: fields).*1) with (name :: fields.*1).
    destruct (decide (name = i)) as [->|Hne].
    + rewrite lookup_insert_eq, decide_True by left. reflexivity.
    + rewrite lookup_insert_ne by exact Hne. rewrite IH.
      destruct (decide (i ∈ fields.*1)) as [Hin|Hnin].
      * rewrite decide_True by (right; exact Hin). reflexivity.
      * rewrite decide_False; [reflexivity|].
        intros [->|Hin]%elem_of_cons; [apply Hne; reflexivity | apply Hnin, Hin].
Qed.

Lemma rebuilt_id props fields :
  dom props = list_to_set fields.*1 → rebuilt props fields = props.
Proof.
  intros Hdom. apply map_eq. intros i. rewrite rebuilt_lookup.
  destruct (decide (i ∈ fields.*1)) as [Hin|Hnin].
  - assert (Hi : i ∈ dom props) by (rewrite Hdom; apply elem_of_list_to_set, Hin).
    apply elem_of_dom in Hi as [v Hv]. unfold get. rewrite Hv. reflexivity.
  - symmetry. apply not_elem_of_dom. rewrite Hdom.
    intros Hin%elem_of_list_to_set. apply Hnin, Hin.
Qed.

Lemma singleton_id (props : gmap string value) name :
  dom props = {[ name ]} → {[ name := get props name ]} = props.
Proof.
  intros Hdom. apply map_eq. intros i.
  destruct (decide (name = i)) as [<-|Hne].
  - rewrite lookup_singleton_eq.
    assert (Hi : name ∈ dom props) by (rewrite Hdom; apply elem_of_singleton_2; reflexivity).
    apply elem_of_dom in Hi as [v Hv]. unfold get. rewrite Hv. reflexivity.
  - rewrite lookup_singleton_ne by exact Hne.
    symmetry. apply not_elem_of_dom. rewrite Hdom.
    intros Hin%elem_of_singleton. apply Hne. symmetry. exact Hin.
Qed.

Lemma populated_slots_lookup props k values i name t :
  (i, (name, t)) ∈ populated_slots props k values →
  (k ≤ i)%nat ∧ values !! (i - k)%nat = Some (name, t)
  ∧ populated props name = true.
Proof.
  revert k. induction values as [|[name' t'] values IH]; intros k; simpl.
  - intros H. apply elem_of_nil in H. contradiction.
  - intros [H|H]%elem_of_app.
    + destruct (populated props name') eqn:Hp.
      * apply list_elem_of_singleton in H. injection H as -> -> ->.
        rewrite Nat.sub_diag. auto.
      * apply elem_of_nil in H. contradiction.
    + destruct (IH _ H) as (Hle & Hl & Hp).
      split; [lia|]. split; [|exact Hp].
      replace (i - k)%nat with (S (i - S k)) by lia. exact Hl.
Qed.

Section struct_roundtrip.
Variable ser : value → result (list byte).
Variable de : class → list byte → result (value * list byte).
Variable wfS : class → value → bool.
Hypothesis classes : ∀ c v, wfS c v = true →
  (∃ props, v = VObject c props) ∧ inverts (ser v) (de c) v.

Lemma fields_roundtrip props fields :
  forallb (λ '(name, t), wf_field wfS t (get props name)) fields = true →
  ∃ parts,
    mapM_result (λ '(name, t), serializeField ser (get props name) t) fields
    = Ok parts
    ∧ ∀ rest, read_fields de fields (concat parts ++ rest)
              = Ok (rebuilt props fields, rest).
Proof.
  induction fields as [|[name t] fields IH]; simpl.
  - intros _. exists []. split; reflexivity.
  - intros [Hwf Hall]%andb_prop.
    destruct (field_roundtrip ser de wfS classes t _ Hwf) as (bs & Hs & Hd).
    destruct (IH Hall) as (parts & Hm & Hr).
    exists (bs :: parts). split.
    + rewrite Hs. simpl. rewrite Hm. reflexivity.
    + intros rest. simpl. rewrite <- app_assoc, Hd. simpl.
      rewrite Hr. reflexivity.
Qed.
End struct_roundtrip.

Lemma struct_roundtrip schema depth : ∀ c v,
  wf_struct depth schema c v = true →
  (∃ props, v = VObject c props)
  ∧ inverts (serializeStruct depth schema v) (deserializeStruct depth schema c) v.
Proof.
  induction depth as [|depth IH]; intros c v Hwf; [discriminate|].
  simpl in Hwf. destruct v as [| | | | |c' props]; try discriminate.
  apply andb_prop in Hwf as [Hc Hwf]. apply bool_decide_eq_true in Hc. subst c'.
  split; [eexists; reflexivity|].
  unfold inverts. cbn [serializeStruct deserializeStruct].
  destruct (schema_get schema c) as [[fields|field values]|]; [| |discriminate].
  - apply andb_prop in Hwf as [Hdom Hall]. apply bool_decide_eq_true in Hdom.
    destruct (fields_roundtrip _ _ _ IH props fields Hall) as (parts & Hm & Hr).
    exists (concat parts). split.
    + rewrite Hm. reflexivity.
    + intros rest. rewrite Hr. simpl. rewrite (rebuilt_id _ _ Hdom). reflexivity.
  - destruct (populated_slots props 0 values) as [|[idx [name t]] [|? ?]] eqn:Hslots;
      try discriminate.
    apply andb_prop in Hwf as [Hwf Hpayload].
    apply andb_prop in Hwf as [Hdom Hidx].
    apply bool_decide_eq_true in Hdom. apply bool_decide_eq_true in Hidx.
    destruct (populated_slots_lookup props 0 values idx name t) as (_ & Hl & _).
    { rewrite Hslots. left. }
    rewrite Nat.sub_0_r in Hl.
    destruct (field_roundtrip _ _ _ IH t _ Hpayload) as (bs & Hs & Hd).
    exists (le_bytes 1 (Z.of_nat idx) ++ bs). split.
    + rewrite (write_uint_ok _ _ Hidx). cbn [mbind result_bind].
      rewrite Hs. reflexivity.
    + intros rest. rewrite <- app_assoc, read_uint_le by exact Hidx.
      cbn [mbind result_bind]. rewrite Nat2Z.id, Hl, Hd. cbn [mbind result_bind].
      rewrite (singleton_id _ _ Hdom). reflexivity.
Qed.

(** ** The signing protocol *)

Lemma sha256_length message : length (SHA256.array message) = 32%nat.
Proof. reflexivity. Qed.

Example sha256_abc :
  map Z_of_byte (SHA256.array (list_byte_of_string "abc"))
  = [0xba; 0x78; 0x16; 0xbf; 0x8f; 0x01; 0xcf; 0xea; 0x41; 0x41; 0x40; 0xde;
     0x5d; 0xae; 0x22; 0x23; 0xb0; 0x03; 0x61; 0xa3; 0x96; 0x17; 0x7a; 0x9c;
     0xb4; 0x10; 0xff; 0x61; 0xf2; 0x00; 0x15; 0xad].
Proof. vm_compute. reflexivity. Qed.

(** A message that needs two blocks. *)
Example sha256_two_blocks :
  map Z_of_byte
    (SHA256.array
       (list_byte_of_string
          "abcdbcdecdefdefgefghfghighijhijkijkljklmklmnlmnomnopnopq"))
  = [36; 141; 106; 97; 210; 6; 56; 184; 229; 192; 38; 147; 12; 62; 96; 57;
     163; 60; 228; 89; 100; 255; 33; 103; 246; 236; 237; 212; 25; 219; 6;
     193].
Proof. vm_compute. reflexivity. Qed.

(** Running an awaited request, a local step, a return. *)
Lemma run_await {S A} (signer : Signer S) c (f : value → prog A) σ :
  run signer (await c ≫= f) σ
  = match perform signer c σ with
    | (Ok v, σ') => logged (Called c) (run signer (f v) σ')
    | (Err e, σ') => Outcome (Err e) σ' [Called c]
    end.
Proof. reflexivity. Qed.

Lemma run_local {S A B} (signer : Signer S) s (r : result A) (f : A → prog B) σ :
  run signer (local s r ≫= f) σ
  = match r with
    | Ok a => logged (Entered s) (run signer (f a) σ)
    | Err e => Outcome (Err e) σ [Entered s]
    end.
Proof. destruct r; reflexivity. Qed.

(** The run of [signTransaction], case by case. *)
Lemma signTransaction_unfold {S} (signer : Signer S)
    receiverId nonce actions blockHash accountId networkId σ :
  signTransaction receiverId nonce actions blockHash signer accountId networkId σ
  = let key := Called (GetPublicKey accountId networkId) in
    match getPublicKey signer accountId networkId σ with
    | (Err e, σ1) => Outcome (Err e) σ1 [key]
    | (Ok publicKey, σ1) =>
      let transaction :=
        createTransaction accountId publicKey receiverId nonce actions blockHash in
      match serialize SCHEMA transaction with
      | Err e => Outcome (Err e) σ1 [key; Entered Assemble; Entered Encode]
      | Ok message =>
        let sign := Called (SignMessage message accountId networkId) in
        match signMessage signer message accountId networkId σ1 with
        | (Err e, σ2) =>
          Outcome (Err e) σ2
            [key; Entered Assemble; Entered Encode; Entered Hash; sign]
        | (Ok signature, σ2) =>
          Outcome
            (signedTx ← package transaction publicKey signature;
             Ok (SHA256.array message, signedTx))
            σ2
            [key; Entered Assemble; Entered Encode; Entered Hash; sign;
             Entered Package]
        end
      end
    end.
Proof.
  unfold signTransaction, signTransaction_body.
  rewrite run_await. cbn [perform]. cbv zeta.
  destruct (getPublicKey signer accountId networkId σ) as [[publicKey|e] σ1];
    [|reflexivity].
  rewrite run_local. rewrite run_local.
  destruct (serialize SCHEMA _) as [message|e]; [|reflexivity].
  rewrite run_local. rewrite run_await. cbn [perform].
  destruct (signMessage signer message accountId networkId σ1)
    as [[signature|e] σ2]; [|reflexivity].
  rewrite run_local. fold (package
    (createTransaction accountId publicKey receiverId nonce actions blockHash)
    publicKey signature).
  destruct (package _ publicKey signature); reflexivity.
Qed.

(** A successful run, step by step. *)
Lemma signTransaction_inv {S} (signer : Signer S)
    receiverId nonce actions blockHash accountId networkId σ hash signedTx :
  returned (signTransaction receiverId nonce actions blockHash signer
              accountId networkId σ) = Ok (hash, signedTx) →
  ∃ publicKey σ1 message signature σ2 keyType data,
    getPublicKey signer accountId networkId σ = (Ok publicKey, σ1)
    ∧ serialize SCHEMA
        (createTransaction accountId publicKey receiverId nonce actions blockHash)
      = Ok message
    ∧ signMessage signer message accountId networkId σ1 = (Ok signature, σ2)
    ∧ get_prop publicKey "keyType" = Ok keyType
    ∧ get_prop signature "signature" = Ok data
    ∧ hash = SHA256.array message
    ∧ signedTx = new_Assignable SignedTransaction
        {[ "transaction" :=
             createTransaction accountId publicKey receiverId nonce actions blockHash;
           "signature" := new_Assignable Signature
             {[ "keyType" := keyType; "data" := data ]} ]}
    ∧ trace (signTransaction receiverId nonce actions blockHash signer
               accountId networkId σ)
      = [Called (GetPublicKey accountId networkId); Entered Assemble;
         Entered Encode; Entered Hash;
         Called (SignMessage message accountId networkId); Entered Package]
    ∧ final (signTransaction receiverId nonce actions blockHash signer
               accountId networkId σ) = σ2.
Proof.
  rewrite signTransaction_unfold. cbv zeta.
  destruct (getPublicKey signer accountId networkId σ) as [[publicKey|e] σ1];
    [|discriminate].
  destruct (serialize SCHEMA _) as [message|e] eqn:Hmsg; [|discriminate].
  destruct (signMessage signer message accountId networkId σ1)
    as [[signature|e] σ2] eqn:Hsig; [|discriminate].
  unfold package. cbn [returned trace final].
  destruct (get_prop publicKey "keyType") as [keyType|e] eqn:Hk;
    [|discriminate].
  destruct (get_prop signature "signature") as [data|e] eqn:Hd;
    [|discriminate].
  intros [= <- <-].
  exists publicKey, σ1, message, signature, σ2, keyType, data.
  repeat split; assumption.
Qed.

(** C1.  Whenever [signTransaction] returns a SignedTransaction, exactly one
    message was handed to the signer's [signMessage], and it is the
    canonical encoding of the Transaction embedded in the returned
    SignedTransaction: the embedded Transaction re-encodes to the signed
    bytes. *)
Theorem signed_bytes_encode_embedded_transaction {S} (signer : Signer S)
    receiverId nonce actions blockHash accountId networkId σ hash signedTx :
  returned (signTransaction receiverId nonce actions blockHash signer
              accountId networkId σ) = Ok (hash, signedTx) →
  ∃ transaction message,
    get_prop signedTx "transaction" = Ok transaction
    ∧ Transaction_encode transaction = Ok message
    ∧ signed_messages
        (trace (signTransaction receiverId nonce actions blockHash signer
                  accountId networkId σ)) = [message].
Proof.
  intros H.
  destruct (signTransaction_inv _ _ _ _ _ _ _ _ _ _ H)
    as (publicKey & σ1 & message & signature & σ2 & keyType & data
        & _ & Hmsg & _ & _ & _ & _ & -> & -> & _).
  exists (createTransaction accountId publicKey receiverId nonce actions blockHash),
    message.
  split; [|split].
  - unfold new_Assignable, get_prop, get.
    rewrite lookup_insert_eq. reflexivity.
  - exact Hmsg.
  - reflexivity.
Qed.

Lemma signed_bytes_encode_embedded_transaction_witness :
  ∃ transaction message,
    get_prop mock_pair.2 "transaction" = Ok transaction
    ∧ Transaction_encode transaction = Ok message
    ∧ signed_messages (trace mock_run) = [message].
Proof.
  apply (signed_bytes_encode_embedded_transaction mock_signer
           (VString "bob.test") (VInt 1) sample_actions sample_blockHash
           (VString "alice.test") (VString "testnet") [] mock_pair.1 mock_pair.2).
  vm_compute. reflexivity.
Defined.

(** C3, as the specification states it: the steps of every run follow the
    listed order, key retrieval coming after assembling, encoding and
    hashing.  The run against the mock signer does not. *)
Lemma listed_order_counterexample :
  returned mock_run = Ok mock_pair
  ∧ map step_of (trace mock_run) ≠ listed_order
  ∧ ¬ (map step_of (trace mock_run) `prefix_of` listed_order).
Proof.
  split; [vm_compute; reflexivity|].
  split.
  - vm_compute. discriminate.
  - intros [k Hk]. vm_compute in Hk. discriminate.
Qed.

(** C3, amended.  The steps of every run occur in the order: delegate key
    retrieval, assemble, encode, hash, delegate signing, package.  A run
    that fails stops part of the way; a run that returns has performed all
    six. *)
Theorem steps_in_performed_order {S} (signer : Signer S)
    receiverId nonce actions blockHash accountId networkId σ :
  let o := signTransaction receiverId nonce actions blockHash signer
             accountId networkId σ in
  map step_of (trace o) `prefix_of` performed_order
  ∧ match returned o with
    | Ok _ => map step_of (trace o) = performed_order
    | Err _ => True
    end.
Proof.
  cbv zeta. rewrite signTransaction_unfold. cbv zeta.
  destruct (getPublicKey signer accountId networkId σ) as [[publicKey|e] σ1];
    [|split; [eexists; reflexivity | exact I]].
  destruct (serialize SCHEMA _) as [message|e];
    [|split; [eexists; reflexivity | exact I]].
  destruct (signMessage signer message accountId networkId σ1)
    as [[signature|e] σ2];
    [|split; [eexists; reflexivity | exact I]].
  cbn [returned trace].
  split; [exists []; reflexivity|].
  destruct (package _ publicKey signature); [reflexivity | exact I].
Qed.

(** The order is observable: with a block hash that cannot be encoded, the
    signer has already been asked for the key when the encoder fails. *)
Example key_requested_before_encoding_fails :
  let o := signTransaction (VString "bob.test") (VInt 1) sample_actions
             (VBytes []) mock_signer (VString "alice.test")
             (VString "testnet") [] in
  returned o = Err SchemaError
  ∧ final o = [GetPublicKey (VString "alice.test") (VString "testnet")].
Proof. vm_compute. split; reflexivity. Qed.

(** C8.  A successful run returns the pair of the 32-byte SHA-256 digest of
    the canonical encoding of the assembled Transaction, and the
    SignedTransaction made of that same Transaction and of a Signature
    carrying the key type of the signer's public key and the bytes of the
    signer's signature. *)
Theorem signTransaction_returns_digest_and_package {S} (signer : Signer S)
    receiverId nonce actions blockHash accountId networkId σ hash signedTx :
  returned (signTransaction receiverId nonce actions blockHash signer
              accountId networkId σ) = Ok (hash, signedTx) →
  ∃ publicKey σ1 message signature σ2 keyType data,
    getPublicKey signer accountId networkId σ = (Ok publicKey, σ1)
    ∧ signMessage signer message accountId networkId σ1 = (Ok signature, σ2)
    ∧ get_prop publicKey "keyType" = Ok keyType
    ∧ get_prop signature "signature" = Ok data
    ∧ let transaction :=
        createTransaction accountId publicKey receiverId nonce actions blockHash in
      serialize SCHEMA transaction = Ok message
      ∧ hash = SHA256.array message
      ∧ length hash = 32%nat
      ∧ signedTx = new_Assignable SignedTransaction
          {[ "transaction" := transaction;
             "signature" := new_Assignable Signature
               {[ "keyType" := keyType; "data" := data ]} ]}.
Proof.
  intros H.
  destruct (signTransaction_inv _ _ _ _ _ _ _ _ _ _ H)
    as (publicKey & σ1 & message & signature & σ2 & keyType & data
        & Hpk & Hmsg & Hsig & Hk & Hd & -> & -> & _ & _).
  exists publicKey, σ1, message, signature, σ2, keyType, data.
  repeat split; first [assumption | apply sha256_length].
Qed.

Lemma signTransaction_returns_digest_and_package_witness :
  ∃ publicKey σ1 message signature σ2 keyType data,
    getPublicKey mock_signer (VString "alice.test") (VString "testnet") []
    = (Ok publicKey, σ1)
    ∧ signMessage mock_signer message (VString "alice.test") (VString "testnet") σ1
      = (Ok signature, σ2)
    ∧ get_prop publicKey "keyType" = Ok keyType
    ∧ get_prop signature "signature" = Ok data
    ∧ let transaction :=
        createTransaction (VString "alice.test") publicKey (VString "bob.test")
          (VInt 1) sample_actions sample_blockHash in
      serialize SCHEMA transaction = Ok message
      ∧ mock_pair.1 = SHA256.array message
      ∧ length mock_pair.1 = 32%nat
      ∧ mock_pair.2 = new_Assignable SignedTransaction
          {[ "transaction" := transaction;
             "signature" := new_Assignable Signature
               {[ "keyType" := keyType; "data" := data ]} ]}.
Proof.
  apply (signTransaction_returns_digest_and_package mock_signer
           (VString "bob.test") (VInt 1) sample_actions sample_blockHash
           (VString "alice.test") (VString "testnet") [] mock_pair.1 mock_pair.2).
  vm_compute. reflexivity.
Defined.


(** With the encoder above, the run then stops at the encoding step: an
    unset [signerId] is not a string. *)
Example undefined_accountId_run :
  let o := signTransaction (VString "bob.test") (VInt 1) sample_actions
             sample_blockHash mock_signer VUndefined VUndefined [] in
  returned o = Err SchemaError
  ∧ map step_of (trace o) = [KeyRetrieval; Assemble; Encode]
  ∧ final o = [GetPublicKey VUndefined VUndefined].
Proof. vm_compute. repeat split; reflexivity. Qed.

(** ** Builders *)

Lemma populated_count_singleton name v :
  (populated_count {[ name := v ]} ≤ 1)%nat.
Proof.
  unfold populated_count. rewrite map_to_list_singleton.
  cbn [filter list_filter]. case_decide; simpl; lia.
Qed.

Lemma new_Enum_singleton c name v :
  new_Enum c {[ name := v ]} = Ok (VObject c {[ name := v ]}).
Proof.
  unfold new_Enum. pose proof (populated_count_singleton name v).
  rewrite decide_False by lia. reflexivity.
Qed.

Lemma populated_slots_names props k values :
  (populated_slots props k values).*2.*1 = populated_names props values.
Proof.
  revert k. induction values as [|[name t] values IH]; intros k; [reflexivity|].
  unfold populated_names. cbn [populated_slots fmap list_fmap].
  rewrite !fmap_app, IH. cbn [fst]. rewrite filter_cons.
  destruct (populated props name) eqn:Hp.
  - rewrite decide_True by reflexivity. reflexivity.
  - rewrite decide_False by discriminate. reflexivity.
Qed.

Lemma populated_slots_length props k values :
  length (populated_slots props k values)
  = length (populated_names props values).
Proof. rewrite <- (populated_slots_names props k), !length_fmap. reflexivity. Qed.

(** C9.  Both access-key builders set the nonce to 0.  [fullAccessKey()]
    populates the [fullAccess] slot of the permission and no other;
    [functionCallAccessKey(receiverId, methodNames, allowance)] populates
    the [functionCall] slot and no other, with exactly the receiver id, the
    method names and the allowance it was given; an allowance left out
    stays absent. *)
Theorem access_key_builders receiverId methodNames allowance :
  (∃ permission,
     fullAccessKey []
     = Ok (VObject AccessKey
             {[ "nonce" := VInt 0;
                "permission" := VObject AccessKeyPermission permission ]})
     ∧ populated_names permission (variants SCHEMA AccessKeyPermission)
       = ["fullAccess"]
     ∧ get permission "fullAccess" = VObject FullAccessPermission ∅)
  ∧ (∃ permission payload,
       functionCallAccessKey [receiverId; methodNames; allowance]
       = Ok (VObject AccessKey
               {[ "nonce" := VInt 0;
                  "permission" := VObject AccessKeyPermission permission ]})
       ∧ populated_names permission (variants SCHEMA AccessKeyPermission)
         = ["functionCall"]
       ∧ get permission "functionCall" = VObject FunctionCallPermission payload
       ∧ payload !! "receiverId" = Some receiverId
       ∧ payload !! "methodNames" = Some methodNames
       ∧ payload !! "allowance" = Some allowance
       ∧ dom payload = {[ "receiverId"; "methodNames"; "allowance" ]})
  ∧ (∃ permission payload,
       functionCallAccessKey [receiverId; methodNames]
       = Ok (VObject AccessKey
               {[ "nonce" := VInt 0;
                  "permission" := VObject AccessKeyPermission permission ]})
       ∧ populated_names permission (variants SCHEMA AccessKeyPermission)
         = ["functionCall"]
       ∧ get permission "functionCall" = VObject FunctionCallPermission payload
       ∧ get payload "receiverId" = receiverId
       ∧ get payload "methodNames" = methodNames
       ∧ get payload "allowance" = VUndefined).
Proof.
  split; [|split].
  - eexists. split; [|split].
    + unfold fullAccessKey. rewrite decide_False by (simpl; lia).
      rewrite new_Enum_singleton. reflexivity.
    + reflexivity.
    + reflexivity.
  - eexists _, _. split; [|split; [|split; [|split; [|split; [|split]]]]].
    + unfold functionCallAccessKey. rewrite new_Enum_singleton. reflexivity.
    + reflexivity.
    + reflexivity.
    + reflexivity.
    + reflexivity.
    + reflexivity.
    + rewrite !dom_insert_L, dom_singleton_L. set_solver.
  - eexists _, _. split; [|split; [|split; [|split; [|split]]]].
    + unfold functionCallAccessKey. rewrite new_Enum_singleton. reflexivity.
    + reflexivity.
    + reflexivity.
    + reflexivity.
    + reflexivity.
    + reflexivity.
Qed.

(** C2.  Every builder is to validate the number of its arguments and to
    fail with an arity error on any mismatch.  [functionCallAccessKey] does
    not: it has no test of [arguments.length], so it never raises an arity
    error; called with no argument it returns an access key whose receiver
    id and method names are [undefined], and called with four it drops the
    last. *)
Theorem functionCallAccessKey_ignores_arity :
  (∀ arguments, is_ok (functionCallAccessKey arguments) = true)
  ∧ functionCallAccessKey []
    = Ok (VObject AccessKey
            {[ "nonce" := VInt 0;
               "permission" := VObject AccessKeyPermission
                 {[ "functionCall" := VObject FunctionCallPermission
                      {[ "receiverId" := VUndefined;
                         "allowance" := VUndefined;
                         "methodNames" := VUndefined ]} ]} ]})
  ∧ functionCallAccessKey
      [VString "bob.test"; VArray []; VInt 1; VString "stray"]
    = functionCallAccessKey [VString "bob.test"; VArray []; VInt 1].
Proof.
  split; [|split].
  - intros arguments. unfold functionCallAccessKey.
    rewrite new_Enum_singleton. reflexivity.
  - unfold functionCallAccessKey. rewrite new_Enum_singleton. reflexivity.
  - reflexivity.
Qed.

(** X1.  The nine other builders validate the exact number of supplied
    arguments: on any mismatch they fail at once with an arity error that
    reports the number supplied, and with the right number they build their
    value. *)
Lemma checked_builders_enforce_arity build arity expected arguments :
  (build, arity, expected) ∈ checked_builders →
  if decide (length arguments = arity)
  then is_ok (build arguments) = true
  else build arguments = Err (ArityError (length arguments) expected).
Proof.
  unfold checked_builders. intros Hin.
  repeat (apply elem_of_cons in Hin as [[= -> -> ->]|Hin]);
    [..|apply elem_of_nil in Hin; contradiction];
    (case_decide as Hlen;
     [ unfold fullAccessKey, createAccount, deployContract, functionCall,
         transfer, stake, addKey, deleteKey, deleteAccount;
       rewrite decide_False by (intros Hne; apply Hne, Hlen);
       rewrite new_Enum_singleton; reflexivity
     | unfold fullAccessKey, createAccount, deployContract, functionCall,
         transfer, stake, addKey, deleteKey, deleteAccount;
       rewrite decide_True by exact Hlen; reflexivity ]).
Qed.

Example functionCall_three_arguments :
  functionCall [VString "set_greeting"; VBytes []; VInt 30000000000000]
  = Err (ArityError 3 "methodName, args, gas, deposit").
Proof.
  apply (checked_builders_enforce_arity functionCall 4
           "methodName, args, gas, deposit"
           [VString "set_greeting"; VBytes []; VInt 30000000000000]).
  unfold checked_builders. do 3 right. left.
Defined.

Example arity_examples :
  fullAccessKey [VInt 1] = Err (ArityError 1 "none")
  ∧ transfer [] = Err (ArityError 0 "deposit")
  ∧ transfer [VInt 1; VInt 2] = Err (ArityError 2 "deposit")
  ∧ is_ok (transfer [VInt 1]) = true.
Proof. vm_compute. repeat split; reflexivity. Qed.

(** ** Encoding of the tagged unions *)

(** C5.  The Action built by [transfer(123)] encodes as the byte 3 followed
    by the sixteen little-endian bytes of 123; 3 is the zero-based index of
    [transfer] among the eight variants that the schema declares for
    Action, from [createAccount] at 0 to [deleteAccount] at 7. *)
Theorem transfer_encoding :
  (action ← transfer [VInt 123]; serialize SCHEMA action)
  = Ok (byte_of_Z 3 :: le_bytes 16 123)
  ∧ le_bytes 16 123 = byte_of_Z 123 :: replicate 15 Byte.x00
  ∧ length (variants SCHEMA Action) = 8%nat
  ∧ variants SCHEMA Action !! 0%nat = Some ("createAccount", TClass CreateAccount)
  ∧ variants SCHEMA Action !! 3%nat = Some ("transfer", TClass Transfer)
  ∧ variants SCHEMA Action !! 7%nat = Some ("deleteAccount", TClass DeleteAccount).
Proof. vm_compute. repeat split; reflexivity. Qed.


(** One level of the encoder and of the decoder. *)
Lemma serializeStruct_struct schema depth c props fields :
  schema_get schema c = Some (Struct fields) →
  serializeStruct (S depth) schema (VObject c props)
  = (parts ← mapM_result
       (λ '(name, t),
          serializeField (serializeStruct depth schema) (get props name) t)
       fields;
     Ok (concat parts)).
Proof. intros H. cbn [serializeStruct]. rewrite H. reflexivity. Qed.

Lemma serializeStruct_enum schema depth c props field values :
  schema_get schema c = Some (Enum field values) →
  serializeStruct (S depth) schema (VObject c props)
  = match populated_slots props 0 values with
    | [(idx, (name, t))] =>
      tag ← write_uint 1 (VInt (Z.of_nat idx));
      payload ← serializeField (serializeStruct depth schema) (get props name) t;
      Ok (tag ++ payload)
    | _ => Err VariantError
    end.
Proof. intros H. cbn [serializeStruct]. rewrite H. reflexivity. Qed.

Lemma deserializeStruct_enum schema depth c field values bs :
  schema_get schema c = Some (Enum field values) →
  deserializeStruct (S depth) schema c bs
  = ('(idx, rest) ← read_uint 1 bs;
     match values !! Z.to_nat idx with
     | None => Err SchemaError
     | Some (name, t) =>
       '(payload, rest) ←
         deserializeField (deserializeStruct depth schema) t rest;
       Ok (VObject c {[ name := payload ]}, rest)
     end).
Proof. intros H. cbn [deserializeStruct]. rewrite H. reflexivity. Qed.

(** The same for every deposit that fits 128 bits. *)
Lemma transfer_encoding_any deposit :
  in_range 16 deposit →
  (action ← transfer [VInt deposit]; serialize SCHEMA action)
  = Ok (byte_of_Z 3 :: le_bytes 16 deposit).
Proof.
  intros H. unfold transfer. rewrite decide_False by (simpl; lia).
  rewrite new_Enum_singleton. cbn [mbind result_bind].
  unfold serialize. change (length SCHEMA) with (S 16).
  rewrite (serializeStruct_enum _ _ _ _ "enum" (variants SCHEMA Action))
    by reflexivity.
  change (populated_slots _ 0 (variants SCHEMA Action))
    with [(3%nat, ("transfer", TClass Transfer))].
  cbv iota beta.
  rewrite write_uint_ok by (unfold in_range; simpl; lia).
  cbn [mbind result_bind serializeField].
  change (get _ "transfer")
    with (VObject Transfer {[ "deposit" := VInt deposit ]}).
  cbv iota beta. rewrite decide_True by reflexivity.
  change 16%nat with (S 15) at 1.
  rewrite (serializeStruct_struct _ _ _ _ [("deposit", TU128)]) by reflexivity.
  cbn [mapM_result serializeField width].
  change (get _ "deposit") with (VInt deposit).
  rewrite write_uint_ok by exact H.
  cbn [mbind result_bind concat]. rewrite app_nil_r. reflexivity.
Qed.

(** C7.  For every tagged union of the schema (Action and
    AccessKeyPermission): encoding an object whose number of populated
    slots is not one (none, or more than one) fails with [VariantError],
    and decoding fails with [SchemaError] when the discriminant byte is not
    below the number of declared variants. *)
Theorem union_exclusivity c field values :
  schema_get SCHEMA c = Some (Enum field values) →
  (c = Action ∨ c = AccessKeyPermission)
  ∧ (∀ props,
       length (populated_names props values) ≠ 1%nat →
       serialize SCHEMA (VObject c props) = Err VariantError)
  ∧ (∀ b rest,
       Z.of_nat (length values) ≤ Z_of_byte b →
       deserialize SCHEMA c (b :: rest) = Err SchemaError).
Proof.
  intros Hc. split; [|split].
  - destruct c; try discriminate; auto.
  - intros props Hn.
    unfold serialize. change (length SCHEMA) with (S 16).
    rewrite (serializeStruct_enum _ _ _ _ _ _ Hc).
    rewrite <- (populated_slots_length props 0) in Hn.
    destruct (populated_slots props 0 values) as [|[idx [name t]] [|? ?]];
      try reflexivity.
    contradiction Hn. reflexivity.
  - intros b rest Hb.
    unfold deserialize. change (length SCHEMA) with (S 16).
    rewrite (deserializeStruct_enum _ _ _ _ _ _ Hc).
    rewrite read_u8_cons. cbn [mbind result_bind].
    rewrite lookup_ge_None_2 by lia. reflexivity.
Qed.

Lemma union_exclusivity_witness :
  serialize SCHEMA (VObject Action ∅) = Err VariantError
  ∧ serialize SCHEMA
      (VObject Action
         {[ "createAccount" := VObject CreateAccount ∅;
            "deleteAccount" := VObject DeleteAccount
               {[ "beneficiaryId" := VString "bob.test" ]} ]})
    = Err VariantError
  ∧ deserialize SCHEMA Action [Byte.x08; Byte.x00] = Err SchemaError.
Proof.
  destruct (union_exclusivity Action "enum" (variants SCHEMA Action) eq_refl)
    as (_ & Hencode & Hdecode).
  split; [|split].
  - apply Hencode. vm_compute. lia.
  - apply Hencode. vm_compute. lia.
  - apply Hdecode. vm_compute. discriminate.
Defined.

(** Two populated slots are refused as well, by the encoder and already by
    the constructor. *)
Example two_slots_refused :
  let props : gmap string value :=
    {[ "createAccount" := VObject CreateAccount ∅;
       "transfer" := VObject Transfer {[ "deposit" := VInt 1 ]} ]} in
  serialize SCHEMA (VObject Action props) = Err VariantError
  ∧ new_Enum Action props = Err VariantError.
Proof. vm_compute. split; reflexivity. Qed.

(** ** Fixed-length byte arrays *)

Lemma fails_only_with_bind {A B} E (m : result A) (f : A → result B) :
  fails_only_with E m → (∀ a, fails_only_with E (f a)) →
  fails_only_with E (m ≫= f).
Proof.
  intros Hm Hf e. destruct m as [a|e']; cbn [mbind result_bind].
  - apply Hf.
  - intros [= <-]. apply Hm. reflexivity.
Qed.

Lemma fails_only_with_ok {A} E (a : A) : fails_only_with E (Ok a).
Proof. intros e. discriminate. Qed.

Lemma fails_only_with_err {A} E : fails_only_with (A := A) E (Err E).
Proof. intros e [= <-]. reflexivity. Qed.

Lemma mapM_result_fails_only {A B} E (f : A → result B) l :
  (∀ x, x ∈ l → fails_only_with E (f x)) →
  fails_only_with E (mapM_result f l).
Proof.
  induction l as [|x l IH]; intros H; cbn [mapM_result].
  - apply fails_only_with_ok.
  - apply fails_only_with_bind; [apply H; left|].
    intros y. apply fails_only_with_bind.
    + apply IH. intros z Hz. apply H. right. exact Hz.
    + intros ys. apply fails_only_with_ok.
Qed.

Lemma mapM_result_fails_at {A B} E (f : A → result B) pre x post :
  (∀ y, y ∈ pre → fails_only_with E (f y)) →
  f x = Err E →
  mapM_result f (pre ++ x :: post) = Err E.
Proof.
  intros Hpre Hx. induction pre as [|y pre IH]; cbn [app mapM_result].
  - rewrite Hx. reflexivity.
  - rewrite IH by (intros z Hz; apply Hpre; right; exact Hz).
    destruct (f y) as [b|e] eqn:Hy; cbn [mbind result_bind]; [reflexivity|].
    f_equal. apply (Hpre y); [left | exact Hy].
Qed.

Lemma write_uint_fails w v : fails_only_with SchemaError (write_uint w v).
Proof. intros e. apply write_uint_error. Qed.

Lemma write_string_fails v : fails_only_with SchemaError (write_string v).
Proof.
  unfold write_string. destruct v; try apply fails_only_with_err.
  destruct (utf8_valid _); [|apply fails_only_with_err].
  apply fails_only_with_bind; [apply write_uint_fails|].
  intros len. apply fails_only_with_ok.
Qed.

Lemma write_fixed_array_fails n v :
  fails_only_with SchemaError (write_fixed_array n v).
Proof.
  unfold write_fixed_array. destruct v; try apply fails_only_with_err.
  case_decide; [apply fails_only_with_ok | apply fails_only_with_err].
Qed.

Lemma serializeField_flat ser t : ∀ v,
  flat t = true → fails_only_with SchemaError (serializeField ser v t).
Proof.
  induction t as [| | | | | |n|t IH|t IH|c]; intros v Hflat;
    try (apply write_uint_fails).
  - apply write_string_fails.
  - apply write_fixed_array_fails.
  - cbn [serializeField]. destruct v as [| | |b|l|];
      try apply fails_only_with_err.
    + destruct t; try apply fails_only_with_err.
      apply fails_only_with_bind; [apply write_uint_fails|].
      intros len. apply fails_only_with_ok.
    + apply fails_only_with_bind; [apply write_uint_fails|].
      intros len. apply fails_only_with_bind.
      * apply mapM_result_fails_only. intros x _. apply IH, Hflat.
      * intros items. apply fails_only_with_ok.
  - cbn [serializeField].
    destruct v; try apply fails_only_with_ok;
      (apply fails_only_with_bind; [apply IH, Hflat|];
       intros ?; apply fails_only_with_ok).
  - discriminate.
Qed.

(** A record of flat fields, as a field of another record. *)
Lemma serializeField_flat_struct schema depth c fields v :
  schema_get schema c = Some (Struct fields) →
  forallb (λ '(_, t), flat t) fields = true →
  fails_only_with SchemaError
    (serializeField (serializeStruct depth schema) v (TClass c)).
Proof.
  intros Hc Hflat. cbn [serializeField].
  destruct v as [| | | | |c' props]; try apply fails_only_with_err.
  case_decide as Heq; [subst c'|apply fails_only_with_err].
  destruct depth as [|depth]; [apply fails_only_with_err|].
  rewrite (serializeStruct_struct _ _ _ _ _ Hc).
  apply fails_only_with_bind; [|intros parts; apply fails_only_with_ok].
  apply mapM_result_fails_only. intros [name t] Hin.
  apply serializeField_flat.
  rewrite forallb_forall in Hflat.
  apply (Hflat (name, t)), list_elem_of_In, Hin.
Qed.

(** C6.  Encoding a PublicKey whose [data] is not 32 bytes long, a
    Transaction whose [blockHash] is not 32 bytes long, or a Signature
    whose [data] is not 64 bytes long fails with [SchemaError]. *)
Theorem fixed_length_enforced c name n props b :
  (c, name, n) ∈ [(PublicKey, "data", 32%nat);
                  (Transaction, "blockHash", 32%nat);
                  (Signature, "data", 64%nat)] →
  props !! name = Some (VBytes b) →
  length b ≠ n →
  serialize SCHEMA (VObject c props) = Err SchemaError.
Proof.
  intros Hin Hb Hlen.
  assert (Hfield : serializeField (serializeStruct 16 SCHEMA) (get props name)
                     (TFixed n) = Err SchemaError).
  { unfold get. rewrite Hb. cbn. rewrite decide_False by exact Hlen.
    reflexivity. }
  unfold serialize. change (length SCHEMA) with (S 16).
  repeat (apply elem_of_cons in Hin as [[= -> -> ->]|Hin]);
    [| | |apply elem_of_nil in Hin; contradiction].
  - rewrite (serializeStruct_struct _ _ _ _
               ([("keyType", TU8)] ++ ("data", TFixed 32) :: [])) by reflexivity.
    rewrite (mapM_result_fails_at SchemaError); [reflexivity| |exact Hfield].
    intros [f t] [= -> ->]%list_elem_of_singleton.
    apply serializeField_flat. reflexivity.
  - rewrite (serializeStruct_struct _ _ _ _
               ([("signerId", TString); ("publicKey", TClass PublicKey);
                 ("nonce", TU64); ("receiverId", TString)]
                ++ ("blockHash", TFixed 32)
                :: [("actions", TArray (TClass Action))])) by reflexivity.
    rewrite (mapM_result_fails_at SchemaError); [reflexivity| |exact Hfield].
    intros [f t] Hf.
    repeat (apply elem_of_cons in Hf as [[= -> ->]|Hf]);
      [| | | |apply elem_of_nil in Hf; contradiction];
      try (apply serializeField_flat; reflexivity).
    apply (serializeField_flat_struct _ _ _
             [("keyType", TU8); ("data", TFixed 32)]); reflexivity.
  - rewrite (serializeStruct_struct _ _ _ _
               ([("keyType", TU8)] ++ ("data", TFixed 64) :: [])) by reflexivity.
    rewrite (mapM_result_fails_at SchemaError); [reflexivity| |exact Hfield].
    intros [f t] [= -> ->]%list_elem_of_singleton.
    apply serializeField_flat. reflexivity.
Qed.

Lemma fixed_length_enforced_witness :
  serialize SCHEMA
    (VObject Transaction
       {[ "signerId" := VString "alice.test"; "publicKey" := sample_publicKey;
          "nonce" := VInt 1; "receiverId" := VString "bob.test";
          "actions" := sample_actions;
          "blockHash" := VBytes (replicate 31 Byte.x09) ]})
  = Err SchemaError.
Proof.
  apply (fixed_length_enforced Transaction "blockHash" 32
           _ (replicate 31 Byte.x09)).
  - vm_compute. right. left.
  - reflexivity.
  - vm_compute. lia.
Defined.

(** Inside a SignedTransaction too: a signature of 63 bytes stops the
    encoder. *)
Example short_signature_refused :
  serialize SCHEMA
    (new_Assignable SignedTransaction
       {[ "transaction" :=
            createTransaction (VString "alice.test") sample_publicKey
              (VString "bob.test") (VInt 1) sample_actions sample_blockHash;
          "signature" := new_Assignable Signature
            {[ "keyType" := VInt 0; "data" := VBytes (replicate 63 Byte.x2a) ]} ]})
  = Err SchemaError.
Proof. vm_compute. reflexivity. Qed.

Example fixed_length_examples :
  serialize SCHEMA
    (VObject PublicKey {[ "keyType" := VInt 0; "data" := VBytes (replicate 33 Byte.x07) ]})
  = Err SchemaError
  ∧ serialize SCHEMA
      (VObject Signature {[ "keyType" := VInt 0; "data" := VBytes (replicate 32 Byte.x07) ]})
    = Err SchemaError
  ∧ is_ok (serialize SCHEMA
      (VObject Signature {[ "keyType" := VInt 0; "data" := VBytes (replicate 64 Byte.x07) ]}))
    = true.
Proof. vm_compute. repeat split; reflexivity. Qed.

(** ** Round trip *)

(** The encoder and the decoder of any schema, on its well-formed values. *)
Lemma deserialize_serialize schema c v :
  well_formed schema c v = true →
  ∃ bytes,
    serialize schema v = Ok bytes
    ∧ deserialize schema c bytes = Ok v.
Proof.
  unfold well_formed, serialize, deserialize. intros Hwf.
  destruct (struct_roundtrip _ _ _ _ Hwf) as (_ & bytes & Hs & Hd).
  exists bytes. split; [exact Hs|].
  rewrite <- (app_nil_r bytes), Hd. reflexivity.
Qed.

(** C4.  For every class registered in the schema and every well-formed
    value of it, the encoder produces bytes and the decoder reads the value
    back from them: [decode(encode(v)) = v]. *)
Theorem decode_inverts_encode c v :
  well_formed SCHEMA c v = true →
  ∃ bytes,
    serialize SCHEMA v = Ok bytes
    ∧ deserialize SCHEMA c bytes = Ok v.
Proof.
  unfold well_formed, serialize, deserialize. intros Hwf.
  destruct (struct_roundtrip _ _ _ _ Hwf) as ((props & ->) & bytes & Hs & Hd).
  exists bytes. split; [exact Hs|].
  specialize (Hd []). rewrite app_nil_r in Hd. rewrite Hd. reflexivity.
Qed.

Lemma decode_inverts_encode_witness :
  ∃ bytes,
    serialize SCHEMA sample_signed = Ok bytes
    ∧ deserialize SCHEMA SignedTransaction bytes = Ok sample_signed.
Proof.
  apply (decode_inverts_encode SignedTransaction sample_signed).
  vm_compute. reflexivity.
Defined.

(** The methods of the two top-level classes. *)
Corollary Transaction_decode_encode v :
  well_formed SCHEMA Transaction v = true →
  ∃ bytes, Transaction_encode v = Ok bytes ∧ Transaction_decode bytes = Ok v.
Proof. exact (deserialize_serialize SCHEMA Transaction v). Qed.

Corollary SignedTransaction_decode_encode v :
  well_formed SCHEMA SignedTransaction v = true →
  ∃ bytes,
    SignedTransaction_encode v = Ok bytes
    ∧ SignedTransaction_decode bytes = Ok v.
Proof. exact (deserialize_serialize SCHEMA SignedTransaction v). Qed.

(** Only registered classes have well-formed values. *)
Lemma well_formed_registered schema c v :
  well_formed schema c v = true → is_Some (schema_get schema c).
Proof.
  unfold well_formed. destruct (length schema) as [|depth]; [discriminate|].
  cbn [wf_struct]. destruct v; try discriminate.
  intros [_ H]%andb_prop.
  destruct (schema_get schema c); [eexists; reflexivity | discriminate].
Qed.

Example sample_signed_bytes :
  (length <$> serialize SCHEMA sample_signed) = Ok 534%nat.
Proof. vm_compute. reflexivity. Qed.

(** ** The depth bound is never reached *)

Lemma ranked_get rank schema c d t c' :
  ranked rank schema = true →
  schema_get schema c = Some d →
  t ∈ descriptor_types d → c' ∈ refs t → (rank c' < rank c)%nat.
Proof.
  induction schema as [|[c0 d0] schema IH]; [discriminate|].
  cbn [ranked forallb schema_get]. intros [H0 Hrest]%andb_prop.
  case_decide as Hc.
  - intros [= <-] Ht Hc'. subst c0.
    rewrite forallb_forall in H0.
    specialize (H0 t (proj1 (list_elem_of_In _ _) Ht)).
    rewrite forallb_forall in H0.
    specialize (H0 c' (proj1 (list_elem_of_In _ _) Hc')).
    apply bool_decide_eq_true in H0. exact H0.
  - apply IH, Hrest.
Qed.

Lemma mapM_result_ext {A B} (f g : A → result B) l :
  (∀ x, x ∈ l → f x = g x) → mapM_result f l = mapM_result g l.
Proof.
  induction l as [|x l IH]; intros H; [reflexivity|].
  cbn [mapM_result]. rewrite (H x) by left.
  rewrite IH by (intros y Hy; apply H; right; exact Hy). reflexivity.
Qed.

Lemma serializeField_ext ser1 ser2 t : ∀ v,
  (∀ c props, c ∈ refs t → ser1 (VObject c props) = ser2 (VObject c props)) →
  serializeField ser1 v t = serializeField ser2 v t.
Proof.
  induction t as [| | | | | |n|t IH|t IH|c]; intros v H; try reflexivity.
  - cbn [serializeField]. destruct v as [| | |b|l|]; try reflexivity.
    rewrite (mapM_result_ext (λ x, serializeField ser1 x t)
               (λ x, serializeField ser2 x t));
      [reflexivity | intros x _; apply IH, H].
  - cbn [serializeField]. rewrite (IH v H). reflexivity.
  - cbn [serializeField]. destruct v as [| | | | |c' props]; try reflexivity.
    case_decide as Hc; [subst c'; apply H; left | reflexivity].
Qed.

Lemma read_array_ext read1 read2 n : ∀ bs,
  (∀ bs, read1 bs = read2 bs) →
  read_array read1 n bs = read_array read2 n bs.
Proof.
  induction n as [|n IH]; intros bs H; [reflexivity|].
  cbn [read_array]. rewrite H. destruct (read2 bs) as [[x rest]|e];
    [|reflexivity].
  cbn [mbind result_bind]. rewrite (IH rest H). reflexivity.
Qed.

Lemma deserializeField_ext de1 de2 t : ∀ bs,
  (∀ c bs, c ∈ refs t → de1 c bs = de2 c bs) →
  deserializeField de1 t bs = deserializeField de2 t bs.
Proof.
  induction t as [| | | | | |n|t IH|t IH|c]; intros bs H; try reflexivity.
  - cbn [deserializeField].
    destruct (read_uint 4 bs) as [[len rest]|e]; [|reflexivity].
    cbn [mbind result_bind].
    assert (E : ∀ n r, read_array (deserializeField de1 t) n r
                       = read_array (deserializeField de2 t) n r)
      by (intros; apply read_array_ext; intros; apply IH, H).
    clear IH. destruct t; try reflexivity; rewrite E; reflexivity.
  - cbn [deserializeField].
    destruct (read_uint 1 bs) as [[flag rest]|e]; [|reflexivity].
    cbn [mbind result_bind]. rewrite (IH rest H). reflexivity.
  - cbn [deserializeField]. apply H. left.
Qed.

Lemma forallb_ext_in {A} (f g : A → bool) l :
  (∀ x, x ∈ l → f x = g x) → forallb f l = forallb g l.
Proof.
  induction l as [|x l IH]; intros H; [reflexivity|].
  cbn [forallb]. rewrite (H x) by left.
  rewrite IH by (intros y Hy; apply H; right; exact Hy). reflexivity.
Qed.

Lemma wf_field_ext wf1 wf2 t : ∀ v,
  (∀ c v, c ∈ refs t → wf1 c v = wf2 c v) →
  wf_field wf1 t v = wf_field wf2 t v.
Proof.
  induction t as [| | | | | |n|t IH|t IH|c]; intros v H; try reflexivity.
  - cbn [wf_field].
    assert (E : ∀ l, forallb (wf_field wf1 t) l = forallb (wf_field wf2 t) l)
      by (intros; apply forallb_ext_in; intros; apply IH, H).
    clear IH. destruct t; try reflexivity;
      (destruct v as [| | |b|l|]; try reflexivity; rewrite E; reflexivity).
  - cbn [wf_field]. rewrite (IH v H). reflexivity.
  - cbn [wf_field]. apply H. left.
Qed.

Section stable.
Variable rank : class → nat.
Variable schema : Schema.
Hypothesis Hranked : ranked rank schema = true.

Lemma serializeStruct_stable d1 : ∀ d2 c props,
  (rank c < d1)%nat → (rank c < d2)%nat →
  serializeStruct d1 schema (VObject c props)
  = serializeStruct d2 schema (VObject c props).
Proof.
  induction d1 as [|d1 IH]; intros d2 c props H1 H2; [lia|].
  destruct d2 as [|d2]; [lia|].
  cbn [serializeStruct].
  destruct (schema_get schema c) as [[fields|field values]|] eqn:Hc;
    [| |reflexivity].
  - rewrite (mapM_result_ext _
      (λ '(name, t),
         serializeField (serializeStruct d2 schema) (get props name) t));
      [reflexivity|].
    intros [name t] Hin. apply serializeField_ext.
    intros c' props' Hc'.
    assert (rank c' < rank c)%nat.
    { apply (ranked_get rank schema c _ t c' Hranked Hc); [|exact Hc'].
      apply (list_elem_of_fmap_2 snd _ _ Hin). }
    apply IH; lia.
  - destruct (populated_slots props 0 values)
      as [|[idx [name t]] [|? ?]] eqn:Hslots; try reflexivity.
    rewrite (serializeField_ext (serializeStruct d1 schema)
               (serializeStruct d2 schema)); [reflexivity|].
    intros c' props' Hc'.
    assert (rank c' < rank c)%nat.
    { apply (ranked_get rank schema c _ t c' Hranked Hc); [|exact Hc'].
      destruct (populated_slots_lookup props 0 values idx name t)
        as (_ & Hl & _); [rewrite Hslots; left|].
      apply (list_elem_of_fmap_2 snd _ (name, t)).
      apply list_elem_of_lookup. eexists. exact Hl. }
    apply IH; lia.
Qed.

Lemma deserializeStruct_stable d1 : ∀ d2 c bs,
  (rank c < d1)%nat → (rank c < d2)%nat →
  deserializeStruct d1 schema c bs = deserializeStruct d2 schema c bs.
Proof.
  induction d1 as [|d1 IH]; intros d2 c bs H1 H2; [lia|].
  destruct d2 as [|d2]; [lia|].
  cbn [deserializeStruct].
  destruct (schema_get schema c) as [[fields|field values]|] eqn:Hc;
    [| |reflexivity].
  - assert (Hfields : ∀ fs bs, fs ⊆ fields →
              read_fields (deserializeStruct d1 schema) fs bs
              = read_fields (deserializeStruct d2 schema) fs bs).
    { induction fs as [|[name t] fs IHfs]; intros bs' Hsub; [reflexivity|].
      cbn [read_fields].
      rewrite (deserializeField_ext (deserializeStruct d1 schema)
                 (deserializeStruct d2 schema)).
      - destruct (deserializeField _ t bs') as [[v rest]|e]; [|reflexivity].
        cbn [mbind result_bind]. rewrite IHfs; [reflexivity|].
        intros x Hx. apply Hsub. right. exact Hx.
      - intros c' bs'' Hc'.
        assert (rank c' < rank c)%nat.
        { apply (ranked_get rank schema c _ t c' Hranked Hc); [|exact Hc'].
          apply (list_elem_of_fmap_2 snd _ (name, t)). apply Hsub. left. }
        apply IH; lia. }
    rewrite Hfields by reflexivity. reflexivity.
  - destruct (read_uint 1 bs) as [[idx rest]|e]; [|reflexivity].
    cbn [mbind result_bind].
    destruct (values !! Z.to_nat idx) as [[name t]|] eqn:Hl; [|reflexivity].
    rewrite (deserializeField_ext (deserializeStruct d1 schema)
               (deserializeStruct d2 schema)); [reflexivity|].
    intros c' bs' Hc'.
    assert (rank c' < rank c)%nat.
    { apply (ranked_get rank schema c _ t c' Hranked Hc); [|exact Hc'].
      apply (list_elem_of_fmap_2 snd _ (name, t)).
      apply list_elem_of_lookup. eexists. exact Hl. }
    apply IH; lia.
Qed.

Lemma wf_struct_stable d1 : ∀ d2 c v,
  (rank c < d1)%nat → (rank c < d2)%nat →
  wf_struct d1 schema c v = wf_struct d2 schema c v.
Proof.
  induction d1 as [|d1 IH]; intros d2 c v H1 H2; [lia|].
  destruct d2 as [|d2]; [lia|].
  cbn [wf_struct]. destruct v as [| | | | |c' props]; try reflexivity.
  f_equal.
  destruct (schema_get schema c) as [[fields|field values]|] eqn:Hc;
    [| |reflexivity].
  - f_equal. apply forallb_ext_in. intros [name t] Hin.
    apply wf_field_ext. intros c'' v' Hc'.
    assert (rank c'' < rank c)%nat.
    { apply (ranked_get rank schema c _ t c'' Hranked Hc); [|exact Hc'].
      apply (list_elem_of_fmap_2 snd _ _ Hin). }
    apply IH; lia.
  - destruct (populated_slots props 0 values)
      as [|[idx [name t]] [|? ?]] eqn:Hslots; try reflexivity.
    f_equal. apply wf_field_ext. intros c'' v' Hc'.
    assert (rank c'' < rank c)%nat.
    { apply (ranked_get rank schema c _ t c'' Hranked Hc); [|exact Hc'].
      destruct (populated_slots_lookup props 0 values idx name t)
        as (_ & Hl & _); [rewrite Hslots; left|].
      apply (list_elem_of_fmap_2 snd _ (name, t)).
      apply list_elem_of_lookup. eexists. exact Hl. }
    apply IH; lia.
Qed.
End stable.

Lemma SCHEMA_ranked : ranked SCHEMA_rank SCHEMA = true.
Proof. vm_compute. reflexivity. Qed.

Lemma SCHEMA_rank_bound c : (SCHEMA_rank c < 7)%nat.
Proof. destruct c; simpl; lia. Qed.

(** Seven levels are enough for [SCHEMA]: beyond them the bound changes
    nothing, for the encoder, the decoder and well-formedness. *)
Lemma depth_irrelevant depth v c bs :
  (7 ≤ depth)%nat →
  serializeStruct depth SCHEMA v = serializeStruct 7 SCHEMA v
  ∧ deserializeStruct depth SCHEMA c bs = deserializeStruct 7 SCHEMA c bs
  ∧ wf_struct depth SCHEMA c v = wf_struct 7 SCHEMA c v.
Proof.
  intros Hd. pose proof (SCHEMA_rank_bound c) as Hc.
  split; [|split].
  - destruct v as [| | | | |c' props];
      try (destruct depth; [lia|reflexivity]).
    pose proof (SCHEMA_rank_bound c').
    apply (serializeStruct_stable SCHEMA_rank SCHEMA SCHEMA_ranked); lia.
  - apply (deserializeStruct_stable SCHEMA_rank SCHEMA SCHEMA_ranked); lia.
  - apply (wf_struct_stable SCHEMA_rank SCHEMA SCHEMA_ranked); lia.
Qed.

(** * Further properties *)

(** ** How a run of [signTransaction] fails *)

Lemma get_prop_error v name e :
  get_prop v name = Err e ↔ v = VUndefined ∧ e = TypeError.
Proof.
  split.
  - destruct v; simpl; try discriminate. intros [= <-]. split; reflexivity.
  - intros [-> ->]. reflexivity.
Qed.

Lemma get_prop_defined v name :
  is_undefined v = false → get_prop v name = Ok (prop_of v name).
Proof. destruct v; try discriminate; reflexivity. Qed.

Lemma package_error transaction publicKey signature e :
  package transaction publicKey signature = Err e
  ↔ e = TypeError ∧ (publicKey = VUndefined ∨ signature = VUndefined).
Proof.
  unfold package.
  destruct (get_prop publicKey "keyType") as [keyType|e1] eqn:Hk;
    cbn [mbind result_bind].
  - destruct (get_prop signature "signature") as [data|e2] eqn:Hd;
      cbn [mbind result_bind].
    + split; [discriminate|]. intros [_ [->| ->]]; discriminate.
    + apply get_prop_error in Hd as [-> ->].
      split; [intros [= <-]; auto | intros [-> _]; reflexivity].
  - apply get_prop_error in Hk as [-> ->].
    split; [intros [= <-]; auto | intros [-> _]; reflexivity].
Qed.

(** X6.  The failures of [signTransaction] are those of its collaborators and
    nothing else: the run fails with [e] exactly when the signer rejects the
    key request with [e], or the encoder fails with [e] on the assembled
    transaction, or the signer rejects the signing request with [e], or
    [e] is the [TypeError] of reading a property of an [undefined] answer
    of the signer. *)
Theorem signTransaction_failures {S} (signer : Signer S)
    receiverId nonce actions blockHash accountId networkId σ e :
  returned (signTransaction receiverId nonce actions blockHash signer
              accountId networkId σ) = Err e
  ↔ match getPublicKey signer accountId networkId σ with
    | (Err e', _) => e = e'
    | (Ok publicKey, σ1) =>
      match serialize SCHEMA
              (createTransaction accountId publicKey receiverId nonce actions
                 blockHash) with
      | Err e' => e = e'
      | Ok message =>
        match signMessage signer message accountId networkId σ1 with
        | (Err e', _) => e = e'
        | (Ok signature, _) =>
          e = TypeError ∧ (publicKey = VUndefined ∨ signature = VUndefined)
        end
      end
    end.
Proof.
  rewrite signTransaction_unfold. cbv zeta.
  destruct (getPublicKey signer accountId networkId σ) as [[publicKey|e1] σ1];
    [|cbn [returned]; split; [intros [= <-] | intros ->]; reflexivity].
  destruct (serialize SCHEMA _) as [message|e1];
    [|cbn [returned]; split; [intros [= <-] | intros ->]; reflexivity].
  destruct (signMessage signer message accountId networkId σ1)
    as [[signature|e1] σ2];
    [|cbn [returned]; split; [intros [= <-] | intros ->]; reflexivity].
  cbn [returned].
  pose proof (package_error
    (createTransaction accountId publicKey receiverId nonce actions blockHash)
    publicKey signature e) as Hp.
  destruct (package _ publicKey signature) as [signedTx|e1];
    cbn [mbind result_bind].
  - split; [discriminate|]. intros H. apply Hp in H. discriminate.
  - split; intros H.
    + apply Hp. injection H as ->. reflexivity.
    + apply Hp in H. injection H as ->. reflexivity.
Qed.

Example signTransaction_failure_examples :
  returned (sample_run keyless_signer) = Err (SignerError "no key")
  ∧ returned (sample_run refusing_signer) = Err (SignerError "rejected")
  ∧ returned (sample_run silent_signer) = Err TypeError.
Proof. vm_compute. repeat split; reflexivity. Qed.

(** X7.  What [signTransaction] asks of the signer: the key, once and first,
    for the account and network ids it was given; then, only if the key
    came and the assembled transaction could be encoded, one signature, of
    that encoding and for the same ids.  It never asks again after a
    failure and never signs anything else. *)
Theorem signer_requests {S} (signer : Signer S)
    receiverId nonce actions blockHash accountId networkId σ :
  let o := signTransaction receiverId nonce actions blockHash signer
             accountId networkId σ in
  match getPublicKey signer accountId networkId σ with
  | (Err _, σ1) =>
    signer_calls (trace o) = [GetPublicKey accountId networkId]
    ∧ final o = σ1
  | (Ok publicKey, σ1) =>
    match serialize SCHEMA
            (createTransaction accountId publicKey receiverId nonce actions
               blockHash) with
    | Err _ =>
      signer_calls (trace o) = [GetPublicKey accountId networkId]
      ∧ final o = σ1
    | Ok message =>
      signer_calls (trace o)
      = [GetPublicKey accountId networkId;
         SignMessage message accountId networkId]
      ∧ final o = (signMessage signer message accountId networkId σ1).2
    end
  end.
Proof.
  cbv zeta. rewrite signTransaction_unfold. cbv zeta.
  destruct (getPublicKey signer accountId networkId σ) as [[publicKey|e1] σ1];
    [|split; reflexivity].
  destruct (serialize SCHEMA _) as [message|e1]; [|split; reflexivity].
  destruct (signMessage signer message accountId networkId σ1)
    as [[signature|e1] σ2]; split; reflexivity.
Qed.

Example signer_requests_examples :
  final (sample_run keyless_signer)
  = [GetPublicKey (VString "alice.test") (VString "testnet")]
  ∧ (∃ message,
       serialize SCHEMA sample_transaction = Ok message
       ∧ final (sample_run refusing_signer)
         = [GetPublicKey (VString "alice.test") (VString "testnet");
            SignMessage message (VString "alice.test") (VString "testnet")]).
Proof.
  split; [vm_compute; reflexivity|].
  eexists. split; vm_compute; reflexivity.
Qed.

(** X8.  [signTransaction] does not validate what the signer answers.  Once the
    key has come, the transaction is encoded and the signer has signed, the
    run fails (with a [TypeError]) only if one of the two answers is
    [undefined]; any other answer is packaged as it is, the key type read
    from the key and the data from the signature, whatever they are. *)
Theorem signer_answers_not_validated {S} (signer : Signer S)
    receiverId nonce actions blockHash accountId networkId σ
    publicKey σ1 message signature σ2 :
  getPublicKey signer accountId networkId σ = (Ok publicKey, σ1) →
  serialize SCHEMA
    (createTransaction accountId publicKey receiverId nonce actions blockHash)
  = Ok message →
  signMessage signer message accountId networkId σ1 = (Ok signature, σ2) →
  returned (signTransaction receiverId nonce actions blockHash signer
              accountId networkId σ)
  = if is_undefined publicKey || is_undefined signature then Err TypeError
    else Ok (SHA256.array message,
             VObject SignedTransaction
               {[ "transaction" :=
                    createTransaction accountId publicKey receiverId nonce
                      actions blockHash;
                  "signature" := VObject Signature
                    {[ "keyType" := prop_of publicKey "keyType";
                       "data" := prop_of signature "signature" ]} ]}).
Proof.
  intros Hpk Hmsg Hsig. rewrite signTransaction_unfold. cbv zeta.
  rewrite Hpk, Hmsg, Hsig. cbn [returned]. unfold package.
  destruct (is_undefined publicKey) eqn:Hu1.
  - destruct publicKey; try discriminate. reflexivity.
  - rewrite (get_prop_defined _ _ Hu1). cbn [mbind result_bind orb].
    destruct (is_undefined signature) eqn:Hu2.
    + destruct signature; try discriminate. reflexivity.
    + rewrite (get_prop_defined _ _ Hu2). reflexivity.
Qed.

Lemma signer_answers_not_validated_witness :
  ∃ message,
    serialize SCHEMA sample_transaction = Ok message
    ∧ returned (sample_run short_signer)
      = Ok (SHA256.array message,
            VObject SignedTransaction
              {[ "transaction" := sample_transaction;
                 "signature" := VObject Signature
                   {[ "keyType" := VInt 0;
                      "data" := VBytes [Byte.x01; Byte.x02; Byte.x03] ]} ]}).
Proof.
  eexists. split; [vm_compute; reflexivity|].
  refine (signer_answers_not_validated short_signer
            (VString "bob.test") (VInt 1) sample_actions sample_blockHash
            (VString "alice.test") (VString "testnet") []
            sample_publicKey _ _ _ _ eq_refl _ eq_refl).
  vm_compute. reflexivity.
Defined.

(** ** Builders and the schema *)

Lemma wf_value_depth d t v :
  (7 ≤ d)%nat → wf_field (wf_struct d SCHEMA) t v = wf_value t v.
Proof.
  intros Hd. unfold wf_value. apply wf_field_ext. intros c v' _.
  pose proof (SCHEMA_rank_bound c).
  apply (wf_struct_stable SCHEMA_rank SCHEMA SCHEMA_ranked);
    [lia | change (length SCHEMA) with 17%nat; lia].
Qed.

Lemma wf_struct_record schema d c fields props :
  schema_get schema c = Some (Struct fields) →
  dom props = list_to_set fields.*1 →
  forallb (λ '(name, t), wf_field (wf_struct d schema) t (get props name))
    fields = true →
  wf_struct (S d) schema c (VObject c props) = true.
Proof.
  intros Hc Hdom Hall. cbn [wf_struct]. rewrite Hc, Hall.
  rewrite !bool_decide_eq_true_2 by (reflexivity || exact Hdom). reflexivity.
Qed.

Lemma wf_struct_union schema d c field values name t idx payload :
  schema_get schema c = Some (Enum field values) →
  populated_slots {[ name := payload ]} 0 values = [(idx, (name, t))] →
  in_range 1 (Z.of_nat idx) →
  wf_field (wf_struct d schema) t payload = true →
  wf_struct (S d) schema c (VObject c {[ name := payload ]}) = true.
Proof.
  intros Hc Hslots Hidx Hwf.
  assert (Hget : get {[ name := payload ]} name = payload)
    by (unfold get; rewrite lookup_singleton_eq; reflexivity).
  cbn [wf_struct]. rewrite Hc, Hslots. cbv iota beta. rewrite Hget, Hwf.
  rewrite !bool_decide_eq_true_2;
    [reflexivity | exact Hidx | apply dom_singleton_L | reflexivity].
Qed.

(** The arguments of a call, taken apart along the parameter types. *)
Ltac take_arguments :=
  repeat match goal with
  | H : Forall2 _ (_ :: _) _ |- _ =>
    let a := fresh "a" in let Ha := fresh "Ha" in
    apply Forall2_cons_inv_l in H as (a & ? & Ha & H & ->)
  | H : Forall2 _ [] _ |- _ => apply Forall2_nil_inv_l in H as ->
  end.

Lemma arg_0 a l : arg (a :: l) 0 = a.
Proof. reflexivity. Qed.

Lemma arg_S a l i : arg (a :: l) (S i) = arg l i.
Proof. reflexivity. Qed.

Lemma arg_nil i : arg [] i = VUndefined.
Proof. destruct i; reflexivity. Qed.

(** A record is well-formed when its properties are the declared fields
    and each is well-formed: an argument by hypothesis, a constant by
    computation; what is left is a nested object. *)
Ltac field_wf :=
  unfold get;
  repeat first [ rewrite lookup_insert_eq
               | rewrite lookup_singleton_eq
               | rewrite lookup_insert_ne by discriminate ];
  cbn [default from_option id];
  lazymatch goal with
  | |- true = true => reflexivity
  | |- wf_field _ (TClass _) (VObject _ _) = true => cbn [wf_field]
  | |- wf_field _ _ _ = true =>
    first [ rewrite wf_value_depth by lia; assumption
          | vm_compute; reflexivity ]
  end.

Ltac record_wf fields :=
  apply (wf_struct_record SCHEMA _ _ fields);
  [ reflexivity
  | apply (bool_decide_unpack _); vm_compute; exact I
  | cbn [forallb];
    repeat match goal with
           | |- _ && _ = true => apply andb_true_intro; split
           end;
    field_wf ].

Ltac union_wf values t idx :=
  apply (wf_struct_union SCHEMA _ _ "enum" values _ t idx);
  [ reflexivity
  | vm_compute; reflexivity
  | unfold in_range; simpl; lia
  | cbn [wf_field] ].

Ltac action_wf t idx fields :=
  rewrite decide_False by (simpl; lia);
  rewrite new_Enum_singleton;
  unfold new_Assignable; rewrite ?arg_S, ?arg_0, ?arg_nil;
  eexists; split; [reflexivity|];
  unfold well_formed;
  union_wf (variants SCHEMA Action) t idx;
  record_wf fields.

(** X2.  Every builder builds a value that conforms to [SCHEMA]: given
    arguments that are well-formed values of the types of the fields they
    fill, the result is a well-formed value of the class built.  The slot a
    builder populates is a declared variant, the class of its payload is
    the declared one, and the properties of the payload are exactly the
    declared fields. *)
Theorem builders_conform_to_schema build c types arguments :
  (build, c, types) ∈ builder_types →
  Forall2 (λ t v, wf_value t v = true) types arguments →
  ∃ v, build arguments = Ok v ∧ well_formed SCHEMA c v = true.
Proof.
  unfold builder_types. intros Hin Hargs.
  repeat (apply elem_of_cons in Hin as [[= -> -> ->]|Hin]);
    [..|apply elem_of_nil in Hin; contradiction];
    take_arguments.
  - unfold fullAccessKey. rewrite decide_False by (simpl; lia).
    rewrite new_Enum_singleton.
    eexists. split; [reflexivity|]. vm_compute. reflexivity.
  - unfold functionCallAccessKey. rewrite new_Enum_singleton.
    unfold new_Assignable. rewrite ?arg_S, ?arg_0, ?arg_nil.
    eexists. split; [reflexivity|]. unfold well_formed.
    record_wf [("nonce", TU64); ("permission", TClass AccessKeyPermission)].
    union_wf (variants SCHEMA AccessKeyPermission)
      (TClass FunctionCallPermission) 0%nat.
    record_wf [("allowance", TOption TU128); ("receiverId", TString);
               ("methodNames", TArray TString)].
  - unfold functionCallAccessKey. rewrite new_Enum_singleton.
    unfold new_Assignable. rewrite ?arg_S, ?arg_0, ?arg_nil.
    eexists. split; [reflexivity|]. unfold well_formed.
    record_wf [("nonce", TU64); ("permission", TClass AccessKeyPermission)].
    union_wf (variants SCHEMA AccessKeyPermission)
      (TClass FunctionCallPermission) 0%nat.
    record_wf [("allowance", TOption TU128); ("receiverId", TString);
               ("methodNames", TArray TString)].
  - unfold createAccount. rewrite decide_False by (simpl; lia).
    rewrite new_Enum_singleton.
    eexists. split; [reflexivity|]. vm_compute. reflexivity.
  - unfold deployContract.
    action_wf (TClass DeployContract) 1%nat [("code", TArray TU8)].
  - unfold functionCall.
    action_wf (TClass FunctionCall) 2%nat
      [("methodName", TString); ("args", TArray TU8); ("gas", TU64);
       ("deposit", TU128)].
  - unfold transfer.
    action_wf (TClass Transfer) 3%nat [("deposit", TU128)].
  - unfold stake.
    action_wf (TClass Stake) 4%nat
      [("stake", TU128); ("publicKey", TClass PublicKey)].
  - unfold addKey.
    action_wf (TClass AddKey) 5%nat
      [("publicKey", TClass PublicKey); ("accessKey", TClass AccessKey)].
  - unfold deleteKey.
    action_wf (TClass DeleteKey) 6%nat [("publicKey", TClass PublicKey)].
  - unfold deleteAccount.
    action_wf (TClass DeleteAccount) 7%nat [("beneficiaryId", TString)].
Qed.

Lemma builders_conform_to_schema_witness :
  ∃ v, addKey [sample_publicKey; sample_accessKey] = Ok v
       ∧ well_formed SCHEMA Action v = true.
Proof.
  apply (builders_conform_to_schema addKey Action
           [TClass PublicKey; TClass AccessKey]
           [sample_publicKey; sample_accessKey]).
  - unfold builder_types. do 8 right. left.
  - repeat constructor; vm_compute; reflexivity.
Defined.

(** X3.  [createTransaction] stores each argument under the name of its own
    parameter (the receiver id and the nonce, which the parameter list and
    the schema order differently, are not exchanged) and nothing else; the
    properties are exactly the fields that [SCHEMA] declares for
    Transaction, so that well-formed arguments give a well-formed
    Transaction. *)
Theorem createTransaction_conforms
    signerId publicKey receiverId nonce actions blockHash :
  wf_value TString signerId = true →
  wf_value (TClass PublicKey) publicKey = true →
  wf_value TString receiverId = true →
  wf_value TU64 nonce = true →
  wf_value (TArray (TClass Action)) actions = true →
  wf_value (TFixed 32) blockHash = true →
  let transaction :=
    createTransaction signerId publicKey receiverId nonce actions blockHash in
  well_formed SCHEMA Transaction transaction = true
  ∧ prop_of transaction "signerId" = signerId
  ∧ prop_of transaction "publicKey" = publicKey
  ∧ prop_of transaction "receiverId" = receiverId
  ∧ prop_of transaction "nonce" = nonce
  ∧ prop_of transaction "actions" = actions
  ∧ prop_of transaction "blockHash" = blockHash.
Proof.
  intros Hs Hp Hr Hn Ha Hb. cbv zeta.
  split; [|repeat split; reflexivity].
  unfold createTransaction, new_Assignable, well_formed.
  record_wf [("signerId", TString); ("publicKey", TClass PublicKey);
             ("nonce", TU64); ("receiverId", TString);
             ("blockHash", TFixed 32); ("actions", TArray (TClass Action))].
Qed.

Lemma createTransaction_conforms_witness :
  well_formed SCHEMA Transaction sample_transaction = true
  ∧ prop_of sample_transaction "signerId" = VString "alice.test"
  ∧ prop_of sample_transaction "publicKey" = sample_publicKey
  ∧ prop_of sample_transaction "receiverId" = VString "bob.test"
  ∧ prop_of sample_transaction "nonce" = VInt 1
  ∧ prop_of sample_transaction "actions" = sample_actions
  ∧ prop_of sample_transaction "blockHash" = sample_blockHash.
Proof.
  apply (createTransaction_conforms (VString "alice.test") sample_publicKey
           (VString "bob.test") (VInt 1) sample_actions sample_blockHash);
    vm_compute; reflexivity.
Defined.

(** ** The schema *)




(** ** Wire format of what the module builds *)

Lemma tagged_head (idx : nat) (payload : result (list byte)) bytes :
  in_range 1 (Z.of_nat idx) →
  (tag ← write_uint 1 (VInt (Z.of_nat idx));
   p ← payload; Ok (tag ++ p)) = Ok bytes →
  head bytes = Some (byte_of_Z (Z.of_nat idx)).
Proof.
  intros Hidx. rewrite (write_uint_ok _ _ Hidx). cbn [mbind result_bind].
  destruct payload as [p|e]; cbn [mbind result_bind]; [|discriminate].
  intros [= <-]. reflexivity.
Qed.

(** An action starts with a discriminant slot of [idx]. *)
Ltac action_tag idx :=
  let Hlen := fresh in
  case_decide as Hlen; [discriminate|];
  rewrite new_Enum_singleton; intros [= <-];
  unfold serialize; change (length SCHEMA) with (S 16);
  rewrite (serializeStruct_enum _ _ _ _ "enum" (variants SCHEMA Action))
    by reflexivity;
  match goal with
  | |- context [populated_slots ?props 0 ?values] =>
    let Hs := fresh in
    assert (Hs : (populated_slots props 0 values).*1 = [idx])
      by (vm_compute; reflexivity);
    destruct (populated_slots props 0 values) as [|[? [? ?]] [|? ?]];
    try discriminate Hs; injection Hs as ->
  end;
  apply (tagged_head idx); unfold in_range; simpl; lia.

(** X9.  The discriminants of the actions on the wire: whatever its arguments,
    the encoding of the action that a builder returns starts with the
    byte of its variant, 0 for [createAccount] up to 7 for
    [deleteAccount], the order in which [SCHEMA] declares them. *)
Theorem action_discriminants build tag arguments action bytes :
  (build, tag) ∈ action_tags →
  build arguments = Ok action →
  serialize SCHEMA action = Ok bytes →
  head bytes = Some (byte_of_Z tag).
Proof.
  unfold action_tags. intros Hin.
  repeat (apply elem_of_cons in Hin as [[= -> ->]|Hin]);
    [..|apply elem_of_nil in Hin; contradiction].
  - unfold createAccount. action_tag 0%nat.
  - unfold deployContract. action_tag 1%nat.
  - unfold functionCall. action_tag 2%nat.
  - unfold transfer. action_tag 3%nat.
  - unfold stake. action_tag 4%nat.
  - unfold addKey. action_tag 5%nat.
  - unfold deleteKey. action_tag 6%nat.
  - unfold deleteAccount. action_tag 7%nat.
Qed.

Lemma action_discriminants_witness :
  head sample_stake_bytes = Some (byte_of_Z 4).
Proof.
  apply (action_discriminants stake 4 [VInt 5; sample_publicKey]
           sample_stake sample_stake_bytes).
  - unfold action_tags. do 4 right. left.
  - vm_compute. reflexivity.
  - vm_compute. reflexivity.
Defined.

(** X10.  What is sent: when [signTransaction] returns a SignedTransaction whose
    signature holds a one-byte key type and 64 bytes of data, its encoding
    is the message that was signed, followed by the key type and by the 64
    bytes: the signature covers everything that precedes it on the wire. *)
Theorem signed_transaction_wire_layout {S} (signer : Signer S)
    receiverId nonce actions blockHash accountId networkId σ
    hash signedTx message k sig :
  let o := signTransaction receiverId nonce actions blockHash signer
             accountId networkId σ in
  returned o = Ok (hash, signedTx) →
  signed_messages (trace o) = [message] →
  prop_of (prop_of signedTx "signature") "keyType" = VInt k →
  in_range 1 k →
  prop_of (prop_of signedTx "signature") "data" = VBytes sig →
  length sig = 64%nat →
  SignedTransaction_encode signedTx = Ok (message ++ byte_of_Z k :: sig).
Proof.
  cbv zeta. intros H Hsigned Hk Hrange Hdata Hlen.
  destruct (signTransaction_inv _ _ _ _ _ _ _ _ _ _ H)
    as (publicKey & σ1 & message' & signature & σ2 & keyType & data
        & _ & Hmsg & _ & _ & _ & _ & -> & Htrace & _).
  rewrite Htrace in Hsigned. injection Hsigned as <-.
  unfold new_Assignable in *.
  assert (keyType = VInt k) as -> by exact Hk.
  assert (data = VBytes sig) as -> by exact Hdata.
  unfold SignedTransaction_encode, serialize.
  change (length SCHEMA) with 17%nat.
  rewrite (serializeStruct_struct SCHEMA 16 _ _
             [("transaction", TClass Transaction);
              ("signature", TClass Signature)]) by reflexivity.
  cbn [mapM_result]. unfold get.
  rewrite lookup_insert_eq, lookup_insert_ne by discriminate.
  rewrite lookup_singleton_eq. cbn [default from_option id].
  unfold createTransaction, new_Assignable in *.
  cbn [serializeField]. rewrite !decide_True by reflexivity.
  unfold serialize in Hmsg. change (length SCHEMA) with 17%nat in Hmsg.
  rewrite (serializeStruct_stable SCHEMA_rank SCHEMA SCHEMA_ranked 17 16
             Transaction) in Hmsg by (simpl; lia).
  rewrite Hmsg. cbn [mbind result_bind].
  rewrite (serializeStruct_struct SCHEMA 15 _ _
             [("keyType", TU8); ("data", TFixed 64)]) by reflexivity.
  cbn [mapM_result serializeField width]. unfold get.
  rewrite lookup_insert_eq, lookup_insert_ne by discriminate.
  rewrite lookup_singleton_eq. cbn [default from_option id].
  rewrite (write_uint_ok _ _ Hrange). cbn [write_fixed_array].
  rewrite decide_True by exact Hlen.
  cbn [mbind result_bind concat le_bytes]. rewrite !app_nil_r. reflexivity.
Qed.

Lemma signed_transaction_wire_layout_witness :
  SignedTransaction_encode mock_pair.2
  = Ok (mock_message ++ byte_of_Z 0 :: replicate 64 Byte.x2a).
Proof.
  apply (signed_transaction_wire_layout mock_signer
           (VString "bob.test") (VInt 1) sample_actions sample_blockHash
           (VString "alice.test") (VString "testnet") [] mock_pair.1
           mock_pair.2 mock_message 0 (replicate 64 Byte.x2a)).
  - vm_compute. reflexivity.
  - vm_compute. reflexivity.
  - vm_compute. reflexivity.
  - unfold in_range. simpl. lia.
  - vm_compute. reflexivity.
  - reflexivity.
Defined.

(** ** Class declarations and the schema *)

(** X5.  The schema agrees with the class declarations.  For every class
    declared in the module, the fields (or variants) of its schema entry
    are exactly its declared properties, and each has a schema type that
    describes the declared type: string for string, an unsigned integer
    for number, [BN] and key type, bytes for [Uint8Array], an option for an
    optional property, the same class for a class.  The variants of the two
    tagged unions come in the order of declaration. *)
Theorem schema_matches_declarations c d :
  schema_get SCHEMA c = Some d →
  c ≠ PublicKey →
  (∀ name t, (name, t) ∈ descriptor_fields d →
     ∃ ts, (name, ts) ∈ declared c ∧ describes ts t = true)
  ∧ (∀ name ts, (name, ts) ∈ declared c → name ∈ descriptor_names d)
  ∧ length (declared c) = length (descriptor_fields d)
  ∧ match d with
    | Enum _ values => values.*1 = (declared c).*1
    | Struct _ => True
    end.
Proof.
  intros Hc Hpk. split; [|split; [|split]].
  - intros name t Hin.
    destruct c; try discriminate; try contradiction; injection Hc as <-;
      cbn [descriptor_fields declared] in *;
      repeat (apply elem_of_cons in Hin as [[= -> ->]|Hin]);
      try (apply elem_of_nil in Hin; contradiction);
      (eexists; split; [repeat first [ left | right ] | reflexivity]).
  - intros name ts Hin.
    destruct c; try discriminate; try contradiction; injection Hc as <-;
      cbn [descriptor_names declared fmap list_fmap fst] in *;
      repeat (apply elem_of_cons in Hin as [[= -> ->]|Hin]);
      try (apply elem_of_nil in Hin; contradiction);
      repeat first [ left | right ].
  - destruct c; try discriminate; try contradiction; injection Hc as <-;
      reflexivity.
  - destruct c; try discriminate; try contradiction; injection Hc as <-;
      first [exact I | reflexivity].
Qed.

Lemma schema_matches_declarations_witness :
  (∃ ts, ("actions", ts) ∈ declared Transaction
         ∧ describes ts (TArray (TClass Action)) = true)
  ∧ "blockHash" ∈ descriptor_names
      (Struct [("signerId", TString); ("publicKey", TClass PublicKey);
               ("nonce", TU64); ("receiverId", TString);
               ("blockHash", TFixed 32);
               ("actions", TArray (TClass Action))]).
Proof.
  destruct (schema_matches_declarations Transaction
              (Struct [("signerId", TString); ("publicKey", TClass PublicKey);
                       ("nonce", TU64); ("receiverId", TString);
                       ("blockHash", TFixed 32);
                       ("actions", TArray (TClass Action))]) eq_refl)
    as (Hfields & Hnames & _ & _); [discriminate|].
  split.
  - apply (Hfields "actions" (TArray (TClass Action))). do 5 right. left.
  - apply (Hnames "blockHash" TsUint8Array). do 5 right. left.
Defined.

Lemma signTransaction_failures_witness :
  returned (sample_run silent_signer) = Err TypeError.
Proof.
  apply (signTransaction_failures silent_signer
           (VString "bob.test") (VInt 1) sample_actions sample_blockHash
           (VString "alice.test") (VString "testnet") [] TypeError).
  vm_compute. split; [reflexivity | right; reflexivity].
Defined.
